(** * movemaster-lib: the Robot protocol engine

    A shallow embedding of the class [Robot], of its types ([Position],
    [ROBOT_ERRORS]), of [src/utils.ts] and of the parts of the JavaScript
    runtime the class relies on (strings, IEEE-754 numbers and their
    textual forms, promises and the serial port's "data" event), followed
    by the properties of the engine. *)

From Stdlib Require Import ZArith String Ascii List Bool Lia DecimalString.
From Stdlib Require Import Floats.
From stdpp Require Import base list.
Import ListNotations.

Open Scope string_scope.

(* ===================================================================== *)
(** * The JavaScript runtime used by the class *)
(* ===================================================================== *)

Module JS.

(** ** Strings

    A JavaScript string is modelled by a Stdlib [string]; each character
    stands for the code unit of the same number (the serial line carries
    7-bit characters, see [portDefaults.dataBits]). *)

Definition CR : ascii := "013"%char.
Definition LF : ascii := "010"%char.

(** The two-character terminator written ["\r\n"] in the source. *)
Definition CRLF : string := String CR (String LF EmptyString).

(** WhiteSpace and LineTerminator code units below 256, as
    [String.prototype.trim] and the numeric parsers skip them:
    TAB, LF, VT, FF, CR, SP and NBSP. *)
Definition isWhiteSpace (c : ascii) : bool :=
  match nat_of_ascii c with
  | 9 | 10 | 11 | 12 | 13 | 32 | 160 => true
  | _ => false
  end.

Definition isEmpty (s : string) : bool :=
  match s with EmptyString => true | String _ _ => false end.

Fixpoint trimStart (s : string) : string :=
  match s with
  | EmptyString => EmptyString
  | String c s' => if isWhiteSpace c then trimStart s' else s
  end.

Fixpoint trimEnd (s : string) : string :=
  match s with
  | EmptyString => EmptyString
  | String c s' =>
      let t := trimEnd s' in
      if isEmpty t && isWhiteSpace c then EmptyString else String c t
  end.

(** [s.trim()] *)
Definition trim (s : string) : string := trimEnd (trimStart s).

(** [s.startsWith(p)] *)
Fixpoint startsWith (s p : string) : bool :=
  match p, s with
  | EmptyString, _ => true
  | String _ _, EmptyString => false
  | String b p', String a s' => Ascii.eqb a b && startsWith s' p'
  end.

(** [s.endsWith(p)]: some tail of [s] is [p]. *)
Fixpoint endsWith (s p : string) : bool :=
  String.eqb s p ||
  match s with
  | EmptyString => false
  | String _ s' => endsWith s' p
  end.

Fixpoint skip (n : nat) (s : string) : string :=
  match n, s with
  | O, _ => s
  | S _, EmptyString => EmptyString
  | S n', String _ s' => skip n' s'
  end.

(** [s.replace(pat, rep)] for a string pattern: only the first occurrence
    of [pat] is replaced. *)
Fixpoint replace (s pat rep : string) : string :=
  if startsWith s pat then rep ++ skip (String.length pat) s
  else match s with
       | EmptyString => EmptyString
       | String c s' => String c (replace s' pat rep)
       end.

(** [s.split(sep)] for a one-character separator: the result is never
    empty, [""] splits into [[""]]. *)
Fixpoint split (s : string) (sep : ascii) : list string :=
  match s with
  | EmptyString => [EmptyString]
  | String c s' =>
      if Ascii.eqb c sep then EmptyString :: split s' sep
      else match split s' sep with
           | h :: t => String c h :: t
           | [] => [String c EmptyString]
           end
  end.

Definition isDigit (c : ascii) : bool :=
  (48 <=? nat_of_ascii c)%nat && (nat_of_ascii c <=? 57)%nat.

(** The longest prefix of decimal digits, and what follows it. *)
Fixpoint spanDigits (s : string) : string * string :=
  match s with
  | EmptyString => (EmptyString, EmptyString)
  | String c s' =>
      if isDigit c then let (d, r) := spanDigits s' in (String c d, r)
      else (EmptyString, s)
  end.

(** The mathematical value of a string of decimal digits. *)
Fixpoint digitsValue (acc : Z) (s : string) : Z :=
  match s with
  | EmptyString => acc
  | String c s' => digitsValue (10 * acc + (Z.of_nat (nat_of_ascii c) - 48)) s'
  end.

(** An optional sign: [true] for ["-"]. *)
Definition spanSign (s : string) : bool * string :=
  match s with
  | String c s' =>
      if Ascii.eqb c "-" then (true, s')
      else if Ascii.eqb c "+" then (false, s')
      else (false, s)
  | EmptyString => (false, s)
  end.

(** The decimal digits of an integer, with a leading ["-"] when negative. *)
Definition digitsOfZ (z : Z) : string :=
  DecimalString.NilZero.string_of_int (Z.to_int z).

Fixpoint zeros (n : nat) : string :=
  match n with O => EmptyString | S n' => String "0" (zeros n') end.

Fixpoint take (n : nat) (s : string) : string :=
  match n, s with
  | O, _ => EmptyString
  | S _, EmptyString => EmptyString
  | S n', String c s' => String c (take n' s')
  end.

(** ** Numbers

    A JavaScript [number] is an IEEE-754 binary64 value: Rocq's primitive
    [float], with its arithmetic and comparisons.  The textual conversions
    are computed exactly, on the integer mantissa and exponent that
    [Prim2SF] exposes. *)

Definition number := float.

(** The float of a natural number below [2^53] (exactly representable). *)
Definition ofZ (n : Z) : number := of_uint63 (Uint63.of_Z n).

(** [Math.floor] *)
Definition Math_floor (x : number) : number :=
  match Prim2SF x with
  | S754_finite s m e =>
      if (0 <=? e)%Z then x
      else
        let d := (2 ^ (- e))%Z in
        let q := (Zpos m / d)%Z in
        if (Zpos m mod d =? 0)%Z then x
        else if s then (- ofZ (q + 1))%float else ofZ q
  | _ => x
  end.

(** The binary64 value nearest to the positive rational [n / d], ties to
    even.  The quotient is taken with at least 62 significant bits and a
    sticky bit, which [binary_normalize] then rounds once. *)
Definition roundRatio (n d : Z) : spec_float :=
  let k := Z.max 0 (64 + Z.log2 d - Z.log2 n) in
  let q := (n * 2 ^ k / d)%Z in
  let sticky := if ((n * 2 ^ k) mod d =? 0)%Z then 0%Z else 1%Z in
  binary_normalize prec emax (2 * q + sticky) (- k - 1) false.

Definition decimalLength (z : Z) : Z :=
  match z with
  | Zpos p => Z.of_nat (Decimal.nb_digits (Pos.to_uint p))
  | _ => 1%Z
  end.

(** The number denoted by [digits * 10^e], negated when [neg]: the
    StringNumericValue rounding of the parsers.  Magnitudes beyond the
    binary64 range are settled without building the power of ten. *)
Definition decimalToNumber (neg : bool) (digits e : Z) : number :=
  let signed (f : number) := if neg then (- f)%float else f in
  if (digits <=? 0)%Z then signed zero
  else if (310 <? decimalLength digits + e)%Z then signed infinity
  else if (decimalLength digits + e <? -330)%Z then signed zero
  else
    signed (SF2Prim (if (0 <=? e)%Z then roundRatio (digits * 10 ^ e) 1
                     else roundRatio digits (10 ^ (- e)))).

(** The ExponentPart of a decimal literal, [0] when there is none (an
    ["e"] that no digit follows is not part of the literal). *)
Definition exponentPart (s : string) : Z :=
  match s with
  | String c r =>
      if Ascii.eqb c "e" || Ascii.eqb c "E" then
        let (eneg, r1) := spanSign r in
        let (ed, _) := spanDigits r1 in
        if isEmpty ed then 0%Z
        else if eneg then (- digitsValue 0 ed)%Z else digitsValue 0 ed
      else 0%Z
  | EmptyString => 0%Z
  end.

(** [parseFloat(s)]: the longest prefix of the trimmed input that is a
    StrDecimalLiteral, [NaN] when there is none. *)
Definition parseFloat (s : string) : number :=
  let (neg, s2) := spanSign (trimStart s) in
  if startsWith s2 "Infinity" then (if neg then neg_infinity else infinity)
  else
    let (ip, s3) := spanDigits s2 in
    let (fp, s4) :=
      match s3 with
      | String c r => if Ascii.eqb c "." then spanDigits r else (EmptyString, s3)
      | EmptyString => (EmptyString, s3)
      end in
    if isEmpty ip && isEmpty fp then nan
    else decimalToNumber neg (digitsValue 0 (ip ++ fp))
           (exponentPart s4 - Z.of_nat (String.length fp)).

(** [parseInt(s, 10)] *)
Definition parseInt (s : string) : number :=
  let (neg, s2) := spanSign (trimStart s) in
  let (ds, _) := spanDigits s2 in
  if isEmpty ds then nan else decimalToNumber neg (digitsValue 0 ds) 0.

(** The exact value of a positive finite number [m * 2^e] as a fraction. *)
Definition fraction (m : positive) (e : Z) : Z * Z :=
  if (0 <=? e)%Z then (Zpos m * 2 ^ e, 1)%Z else (Zpos m, 2 ^ (- e))%Z.

(** The decade of the positive rational [n / d]: the [k] with
    [10^(k-1) <= n/d < 10^k]. *)
Fixpoint decadeBelow (fuel : nat) (n d j : Z) : Z :=
  match fuel with
  | O => (1 - j)%Z
  | S fuel' => if (d <=? n * 10 ^ j)%Z then (1 - j)%Z
               else decadeBelow fuel' n d (j + 1)
  end.

Definition decade (n d : Z) : Z :=
  if (d <=? n)%Z then decimalLength (n / d) else decadeBelow 400 n d 1.

(** [x = n/d] scaled to [k] digits before the point, for the decade
    [n0] of [x]. *)
Definition scaled (n d n0 k : Z) : Z * Z :=
  if (0 <=? n0 - k)%Z then (n, d * 10 ^ (n0 - k))%Z
  else (n * 10 ^ (k - n0), d)%Z.

(** A [k]-digit significand that overflowed to [10^k] is [10^(k-1)] one
    decade up. *)
Definition renormalise (s n0 k : Z) : Z * Z :=
  if (s =? 10 ^ k)%Z then (10 ^ (k - 1), n0 + 1)%Z else (s, n0).

(** The [k]-digit decimal nearest to [x] (the even one on a tie). *)
Definition nearestAt (n d n0 k : Z) : Z * Z :=
  let (num, den) := scaled n d n0 k in
  let lo := (num / den)%Z in
  let twice := (2 * (num mod den))%Z in
  if (twice <? den)%Z || ((twice =? den)%Z && Z.even lo)
  then renormalise lo n0 k else renormalise (lo + 1) n0 k.

(** The candidate with [k] digits for the shortest decimal that reads back
    as [x = n/d]: of the two [k]-digit neighbours of [x], the one that
    [decimalToNumber] maps to [x], and the nearer one when both do. *)
Definition shortestAt (x : number) (n d n0 k : Z) : option (Z * Z) :=
  let (num, den) := scaled n d n0 k in
  let lo := (num / den)%Z in
  let ok s := PrimFloat.eqb (decimalToNumber false s (n0 - k)) x in
  match ok lo, ok (lo + 1)%Z with
  | true, true => Some (nearestAt n d n0 k)
  | true, false => Some (renormalise lo n0 k)
  | false, true => Some (renormalise (lo + 1) n0 k)
  | false, false => None
  end.

(** The first [k] that has a candidate; seventeen digits always read
    back, so the search ends there at the latest. *)
Fixpoint shortestFrom (fuel : nat) (x : number) (n d n0 k : Z) : Z * Z :=
  match fuel with
  | O => nearestAt n d n0 k
  | S fuel' =>
      match shortestAt x n d n0 k with
      | Some r => r
      | None => shortestFrom fuel' x n d n0 (k + 1)
      end
  end.

(** Number::toString(x) in radix 10, as a template literal renders a
    number: the shortest digit string [s] and the exponent [n] with
    [s * 10^(n-k)] reading back as [x], laid out by the position of the
    decimal point. *)
Definition Number_toString (x : number) : string :=
  match Prim2SF x with
  | S754_nan => "NaN"
  | S754_zero _ => "0"
  | S754_infinity s => if s then "-Infinity" else "Infinity"
  | S754_finite sg m e =>
      let (n, d) := fraction m e in
      let (s, n') := shortestFrom 16 (abs x) n d (decade n d) 1 in
      let ds := digitsOfZ s in
      let k := Z.of_nat (String.length ds) in
      let body :=
        if (k <=? n')%Z && (n' <=? 21)%Z then ds ++ zeros (Z.to_nat (n' - k))
        else if (0 <? n')%Z && (n' <=? 21)%Z then
          take (Z.to_nat n') ds ++ "." ++ skip (Z.to_nat n') ds
        else if (-6 <? n')%Z && (n' <=? 0)%Z then
          "0." ++ zeros (Z.to_nat (- n')) ++ ds
        else
          let ex := (if (n' - 1 <? 0)%Z then "-" else "+")
                    ++ digitsOfZ (Z.abs (n' - 1)) in
          if (k =? 1)%Z then ds ++ "e" ++ ex
          else take 1 ds ++ "." ++ skip 1 ds ++ "e" ++ ex in
      if sg then "-" ++ body else body
  end.

(** [x.toFixed(1)] *)
Definition toFixed1 (x : number) : string :=
  match Prim2SF x with
  | S754_finite sg m e =>
      let (n, d) := fraction m e in
      if (10 ^ 21 * d <=? n)%Z then
        (if sg then "-" else "") ++ Number_toString (abs x)
      else
        let r := ((20 * n + d) / (2 * d))%Z in
        let ds := digitsOfZ r in
        let ds := if (String.length ds <=? 1)%nat
                  then zeros (2 - String.length ds) ++ ds else ds in
        let a := String.length ds - 1 in
        (if sg then "-" else "") ++ take a ds ++ "." ++ skip a ds
  | S754_zero _ => "0.0"
  | _ => Number_toString x
  end.

End JS.

Bind Scope float_scope with JS.number.

(* ===================================================================== *)
(** * The types module and src/utils.ts *)
(* ===================================================================== *)

Module Types.

Record Position : Type := mkPosition {
  x : JS.number;
  y : JS.number;
  z : JS.number;
  p : JS.number;
  r : JS.number
}.

Inductive ROBOT_ERRORS : Type :=
  | HARDWARE_ERROR
  | COMMAND_ERROR
  | UNKNOWN_ERROR.

(** The numeric value of an enum member, as a template literal prints it. *)
Definition ROBOT_ERRORS_value (e : ROBOT_ERRORS) : Z :=
  match e with
  | HARDWARE_ERROR => 1
  | COMMAND_ERROR => 2
  | UNKNOWN_ERROR => 99
  end.

End Types.

Module Utils.

(** [fmt = (value) => value.toFixed(1)] *)
Definition fmt (value : JS.number) : string := JS.toFixed1 value.

End Utils.

(* ===================================================================== *)
(** * The world the class runs in *)
(* ===================================================================== *)

Module Runtime.

Import Types.

(** [new Error(message)] *)
Inductive Error : Type := MkError (message : string).

(** A reference to a [Position] object in the store. *)
Definition Ref := nat.

(** The promises that [sendCommandWithAnswer] creates. *)
Inductive PromiseState : Type :=
  | Unsettled
  | Resolved (value : string)
  | Failed (e : Error).

(** The closure that [sendCommandWithAnswer] registers with
    [port.on("data", ...)]: it owns its [stringBuffer] and the [resolve]
    of the promise numbered [waiter]. *)
Record Listener : Type := mkListener {
  waiter : nat;
  stringBuffer : string
}.

(** The serial port object: whether it is open, the registered "data"
    listeners in registration order, the chunks the device will still
    deliver, and the error (if any) the transport reports to a write
    callback.  The listener that [connect] registers only logs the data;
    it is left out, as is all console output. *)
Record SerialPort : Type := mkSerialPort {
  isOpen : bool;
  dataListeners : list Listener;
  incoming : list string;
  writeError : option Error
}.

(** What the outside of the engine observes, in time order. *)
Inductive Event : Type :=
  | Wrote (data : string)
  | Slept (ms : nat).

(** The fields of a [Robot] instance, then the runtime around it: the
    object store, the promise table, the [resolve(response)] calls made by
    data listeners so far, and the time line of writes and delays. *)
Record World : Type := mkWorld {
  port : option SerialPort;
  position : option Ref;
  toolIsOpen : bool;
  toolLength : JS.number;
  speed : JS.number;
  portIsOpen : bool;
  heap : list Position;
  promises : list PromiseState;
  responses : list (nat * string);
  timeline : list Event
}.

Definition set_port (sp : option SerialPort) (w : World) : World :=
  mkWorld sp (position w) (toolIsOpen w) (toolLength w) (speed w)
    (portIsOpen w) (heap w) (promises w) (responses w) (timeline w).

Definition set_position (o : option Ref) (w : World) : World :=
  mkWorld (port w) o (toolIsOpen w) (toolLength w) (speed w)
    (portIsOpen w) (heap w) (promises w) (responses w) (timeline w).

Definition set_toolIsOpen (b : bool) (w : World) : World :=
  mkWorld (port w) (position w) b (toolLength w) (speed w)
    (portIsOpen w) (heap w) (promises w) (responses w) (timeline w).

Definition set_toolLength (v : JS.number) (w : World) : World :=
  mkWorld (port w) (position w) (toolIsOpen w) v (speed w)
    (portIsOpen w) (heap w) (promises w) (responses w) (timeline w).

Definition set_speed (v : JS.number) (w : World) : World :=
  mkWorld (port w) (position w) (toolIsOpen w) (toolLength w) v
    (portIsOpen w) (heap w) (promises w) (responses w) (timeline w).

Definition set_heap (h : list Position) (w : World) : World :=
  mkWorld (port w) (position w) (toolIsOpen w) (toolLength w) (speed w)
    (portIsOpen w) h (promises w) (responses w) (timeline w).

Definition set_promises (ps : list PromiseState) (w : World) : World :=
  mkWorld (port w) (position w) (toolIsOpen w) (toolLength w) (speed w)
    (portIsOpen w) (heap w) ps (responses w) (timeline w).

Definition set_responses (rs : list (nat * string)) (w : World) : World :=
  mkWorld (port w) (position w) (toolIsOpen w) (toolLength w) (speed w)
    (portIsOpen w) (heap w) (promises w) rs (timeline w).

Definition set_timeline (t : list Event) (w : World) : World :=
  mkWorld (port w) (position w) (toolIsOpen w) (toolLength w) (speed w)
    (portIsOpen w) (heap w) (promises w) (responses w) t.

(** ** Asynchronous computations

    An [async] method, run from the world it is called in until its
    promise settles or can no longer make progress. *)
Inductive Outcome (A : Type) : Type :=
  | Fulfilled (a : A)
  | Rejected (e : Error)
  | Pending.

Arguments Fulfilled {A} a.
Arguments Rejected {A} e.
Arguments Pending {A}.

Definition Async (A : Type) : Type := World -> Outcome A * World.

Definition ret {A} (a : A) : Async A := fun w => (Fulfilled a, w).

Definition throw {A} (e : Error) : Async A := fun w => (Rejected e, w).

Definition bind {A B} (m : Async A) (k : A -> Async B) : Async B :=
  fun w =>
    match m w with
    | (Fulfilled a, w') => k a w'
    | (Rejected e, w') => (Rejected e, w')
    | (Pending, w') => (Pending, w')
    end.

Notation "x <- m ;; k" := (bind m (fun x => k))
  (at level 100, m at next level, right associativity).
Notation "m ;; k" := (bind m (fun _ => k))
  (at level 100, right associativity).

(** A synchronous change of the world. *)
Definition modify (f : World -> World) : Async unit :=
  fun w => (Fulfilled tt, f w).

(** ** The object store *)

(** A new object holding [pos]; its reference is the next free index. *)
Definition alloc (pos : Position) : Async Ref :=
  fun w => (Fulfilled (length (heap w)), set_heap (heap w ++ [pos])%list w).

Definition NaNPosition : Position :=
  mkPosition PrimFloat.nan PrimFloat.nan PrimFloat.nan PrimFloat.nan
    PrimFloat.nan.

(** The object a reference points to.  References are only made by
    [alloc], so the default is never read in a world the methods built. *)
Definition deref (w : World) (ref : Ref) : Position :=
  default NaNPosition (heap w !! ref).

(** An assignment [ref.field = v] made by whoever holds [ref]. *)
Definition assign (ref : Ref) (f : Position -> Position) (w : World) : World :=
  match heap w !! ref with
  | Some pos => set_heap (<[ref := f pos]> (heap w)) w
  | None => w
  end.

(** ** Timers and the transport *)

(** [delay(ms)] of utils.ts: the promise of a [setTimeout]. *)
Definition delay (ms : nat) : Async unit :=
  modify (fun w => set_timeline (timeline w ++ [Slept ms])%list w).

(** [port.write(data)] *)
Definition write (data : string) (w : World) : World :=
  set_timeline (timeline w ++ [Wrote data])%list w.

(** [resolve(v)] of promise [pid]: only an unsettled promise changes. *)
Definition resolve (pid : nat) (v : string) (ps : list PromiseState)
  : list PromiseState :=
  match ps !! pid with
  | Some Unsettled => <[pid := Resolved v]> ps
  | _ => ps
  end.

(** [reject(e)] of promise [pid]. *)
Definition reject (pid : nat) (e : Error) (ps : list PromiseState)
  : list PromiseState :=
  match ps !! pid with
  | Some Unsettled => <[pid := Failed e]> ps
  | _ => ps
  end.

(** The body of the "data" listener of [sendCommandWithAnswer], run on one
    chunk: append, and when the buffer ends with the terminator resolve
    with the trimmed buffer and reset it. *)
Definition onData (data : string) (l : Listener)
    (st : list PromiseState * list (nat * string))
  : Listener * (list PromiseState * list (nat * string)) :=
  let buffer := stringBuffer l ++ data in
  if JS.endsWith buffer JS.CRLF then
    let response := JS.trim buffer in
    (mkListener (waiter l) EmptyString,
     (resolve (waiter l) response (fst st),
      (snd st ++ [(waiter l, response)])%list))
  else (mkListener (waiter l) buffer, st).

(** The port emits "data": every listener runs, in registration order. *)
Fixpoint emitData (data : string) (ls : list Listener)
    (st : list PromiseState * list (nat * string))
  : list Listener * (list PromiseState * list (nat * string)) :=
  match ls with
  | [] => ([], st)
  | l :: ls' =>
      let (l', st') := onData data l st in
      let (ls'', st'') := emitData data ls' st' in
      (l' :: ls'', st'')
  end.

(** One chunk arrives from the device on the port of this robot. *)
Definition deliver (data : string) (w : World) : World :=
  match port w with
  | Some sp =>
      let '(ls, (ps, rs)) :=
        emitData data (dataListeners sp) (promises w, responses w) in
      set_responses rs (set_promises ps
        (set_port (Some (mkSerialPort (isOpen sp) ls (incoming sp)
                           (writeError sp))) w))
  | None => w
  end.

(** The chunks still to come on the port. *)
Definition pendingInput (w : World) : list string :=
  match port w with Some sp => incoming sp | None => [] end.

Definition set_incoming (chunks : list string) (w : World) : World :=
  match port w with
  | Some sp =>
      set_port (Some (mkSerialPort (isOpen sp) (dataListeners sp) chunks
                        (writeError sp))) w
  | None => w
  end.

(** [await] of promise [pid]: the caller is suspended while the device's
    chunks arrive one by one, until the promise is settled; when the input
    runs out first the caller stays suspended. *)
Fixpoint awaitWith (pid : nat) (feed : list string) (w : World)
  : Outcome string * World :=
  match promises w !! pid with
  | Some (Resolved v) => (Fulfilled v, w)
  | Some (Failed e) => (Rejected e, w)
  | _ =>
      match feed with
      | [] => (Pending, w)
      | data :: feed' => awaitWith pid feed' (deliver data (set_incoming feed' w))
      end
  end.

Definition await (pid : nat) : Async string :=
  fun w => awaitWith pid (pendingInput w) w.

End Runtime.

(* ===================================================================== *)
(** * class Robot *)
(* ===================================================================== *)

Module Robot.

Import Runtime.

(** The state of [new Robot()]. *)
Definition newRobot : World :=
  mkWorld None None false (-1)%float (-1)%float false [] [] [] [].

(** [private checkPortOpen()] *)
Definition checkPortOpen : Async unit :=
  fun w =>
    match port w with
    | Some sp =>
        if isOpen sp then (Fulfilled tt, w)
        else (Rejected (MkError "Port is not open"), w)
    | None => (Rejected (MkError "Port is not open"), w)
    end.

(** [async sendCommandNoAnswer(command)] *)
Definition sendCommandNoAnswer (command : string) : Async unit :=
  checkPortOpen ;;
  modify (write (command ++ JS.CRLF)) ;;
  delay 100.

(** [this.port.on("data", listener)] *)
Definition onDataListener (l : Listener) (w : World) : World :=
  match port w with
  | Some sp =>
      set_port (Some (mkSerialPort (isOpen sp) (dataListeners sp ++ [l])%list
                        (incoming sp) (writeError sp))) w
  | None => w
  end.

(** The callback given to [this.port.write]: [reject(err)] when the
    transport reports an error for the write. *)
Definition writeCallback (pid : nat) (w : World) : World :=
  match port w with
  | Some sp =>
      match writeError sp with
      | Some err => set_promises (reject pid err (promises w)) w
      | None => w
      end
  | None => w
  end.

(** [sendCommandWithAnswer(command)]: not [async]; the executor of the new
    promise runs at once and the promise is returned unsettled (or
    rejected, when [checkPortOpen] throws in the executor). *)
Definition sendCommandWithAnswer (command : string) (w : World) : nat * World :=
  let pid := length (promises w) in
  let w0 := set_promises (promises w ++ [Unsettled])%list w in
  match checkPortOpen w0 with
  | (Fulfilled _, w1) =>
      let stringBuffer := EmptyString in
      let w2 := writeCallback pid (write (command ++ JS.CRLF) w1) in
      (pid, onDataListener (mkListener pid stringBuffer) w2)
  | (Rejected e, w1) => (pid, set_promises (reject pid e (promises w1)) w1)
  | (Pending, w1) => (pid, w1)
  end.

(** [await this.sendCommandWithAnswer(command)] *)
Definition awaitAnswer (command : string) : Async string :=
  fun w => let (pid, w') := sendCommandWithAnswer command w in await pid w'.

(** The result type [{ ok: true } | { ok: false; error: ROBOT_ERRORS }]. *)
Inductive ErrResult : Type :=
  | Ok
  | NotOk (error : Types.ROBOT_ERRORS).

(** The [isNaN] test and the [switch] of [checkRobotErrorCode]. *)
Definition errorResultOf (res : string) : ErrResult :=
  let errorCode := JS.parseInt res in
  if PrimFloat.is_nan errorCode then NotOk Types.UNKNOWN_ERROR
  else if PrimFloat.eqb errorCode 0 then Ok
  else if PrimFloat.eqb errorCode 1 then NotOk Types.HARDWARE_ERROR
  else if PrimFloat.eqb errorCode 2 then NotOk Types.COMMAND_ERROR
  else NotOk Types.UNKNOWN_ERROR.

(** [async checkRobotErrorCode()] *)
Definition checkRobotErrorCode : Async ErrResult :=
  checkPortOpen ;;
  res <- awaitAnswer "ER" ;;
  ret (errorResultOf res).

(** The five formatted coordinates of a command. *)
Definition coordinates (x y z p r : JS.number) : string :=
  Utils.fmt x ++ ", " ++ Utils.fmt y ++ ", " ++ Utils.fmt z ++ ", "
  ++ Utils.fmt p ++ ", " ++ Utils.fmt r.

(** [async moveTo(position, interpolatePoints = 0)] *)
Definition moveTo (position : Types.Position) (interpolatePoints : JS.number)
  : Async unit :=
  checkPortOpen ;;
  let '(Types.mkPosition x y z p r) := position in
  (if PrimFloat.eqb interpolatePoints 0 then
     sendCommandNoAnswer ("MP " ++ coordinates x y z p r)
   else
     sendCommandNoAnswer "PC 1" ;;
     sendCommandNoAnswer ("PD 1, " ++ coordinates x y z p r) ;;
     (fun w =>
        sendCommandNoAnswer
          ("MS 1, " ++ JS.Number_toString interpolatePoints ++ ", "
           ++ (if toolIsOpen w then "C" else "O")) w)) ;;
  ref <- alloc (Types.mkPosition x y z p r) ;;
  modify (set_position (Some ref)).

(** [async moveToXYZ(x, y, z, interpolatePoints = 0)] *)
Definition moveToXYZ (x y z interpolatePoints : JS.number) : Async unit :=
  fun w =>
    match position w with
    | None => throw (MkError "Actual position not set") w
    | Some ref =>
        moveTo (Types.mkPosition x y z (Types.p (deref w ref))
                  (Types.r (deref w ref)))
          interpolatePoints w
    end.

(** One element of the [map] over the split response. *)
Definition parsePart (part : string) : JS.number :=
  let cleaned := JS.replace (JS.trim part) "+" "" in
  let cleaned := if JS.startsWith cleaned "." then "0" ++ cleaned else cleaned in
  JS.parseFloat cleaned.

(** [async getActualPosition(forceUpdateByHardware = true)]: the result is
    a reference to the returned object. *)
Definition getActualPosition (forceUpdateByHardware : bool) : Async Ref :=
  fun w =>
    match negb forceUpdateByHardware, position w with
    | true, Some ref => alloc (deref w ref) w
    | _, _ =>
        (response <- awaitAnswer "WH" ;;
         let parts := map parsePart (JS.split response ",") in
         if (length parts <? 5)%nat then
           throw (MkError "Invalid position response format")
         else
           let position :=
             Types.mkPosition (nth 0 parts PrimFloat.nan)
               (nth 1 parts PrimFloat.nan) (nth 2 parts PrimFloat.nan)
               (nth 3 parts PrimFloat.nan) (nth 4 parts PrimFloat.nan) in
           ref <- alloc position ;;
           modify (set_position (Some ref)) ;;
           alloc position) w
    end.

(** [async setGripper(open)] *)
Definition setGripper (open : bool) : Async unit :=
  checkPortOpen ;;
  (if open then sendCommandNoAnswer "GO" else sendCommandNoAnswer "GC") ;;
  modify (set_toolIsOpen open).

(** [async setSpeed(speed)] *)
Definition setSpeed (speed : JS.number) : Async unit :=
  checkPortOpen ;;
  let roundedSpeed := JS.Math_floor speed in
  if PrimFloat.ltb roundedSpeed 0 || PrimFloat.ltb 9 roundedSpeed then
    throw (MkError "Speed must be between 0 and 9")
  else
    modify (set_speed roundedSpeed) ;;
    sendCommandNoAnswer ("SP " ++ JS.Number_toString roundedSpeed).

(** [async setToolLength(length)] *)
Definition setToolLength (length : JS.number) : Async unit :=
  checkPortOpen ;;
  modify (set_toolLength length) ;;
  sendCommandNoAnswer ("TL " ++ JS.Number_toString (JS.Math_floor length)).

(** [async withCheck<T>(result)]: [result] is the operation whose promise
    is awaited first. *)
Definition withCheck {T : Type} (result : Async T) : Async T :=
  cbResult <- result ;;
  errResult <- checkRobotErrorCode ;;
  match errResult with
  | Ok => ret cbResult
  | NotOk error =>
      throw (MkError ("Command errored: "
                      ++ JS.digitsOfZ (Types.ROBOT_ERRORS_value error)))
  end.

Definition positionOffset : Z := 1.

(** The [PD] command of [movePath] for the point of index [i]. *)
Definition storeCommand (i : Z) (point : Types.Position) : string :=
  "PD " ++ JS.digitsOfZ (i + positionOffset) ++ ", "
  ++ coordinates (Types.x point) (Types.y point) (Types.z point)
       (Types.p point) (Types.r point).

(** The [for] loop of [movePath], from index [i] on.  Indices and lengths
    are integers below [2^32], which a template literal prints in full. *)
Fixpoint movePathLoop (i : Z) (points : list Types.Position) : Async unit :=
  match points with
  | [] => ret tt
  | point :: rest =>
      sendCommandNoAnswer (storeCommand i point) ;;
      delay 100 ;;
      movePathLoop (i + 1) rest
  end.

(** [async movePath(points)] *)
Definition movePath (points : list Types.Position) : Async unit :=
  checkPortOpen ;;
  movePathLoop 0 points ;;
  sendCommandNoAnswer
    ("MC " ++ JS.digitsOfZ positionOffset ++ ", "
     ++ JS.digitsOfZ (Z.of_nat (length points) - 1 + positionOffset)).

(** [async moveDelta(x, y, z, pOrInterpolatePoints?, r?, interpolatePoints?)]:
    an argument left out, or [undefined], is [None]. *)
Definition moveDelta (x y z : JS.number)
    (pOrInterpolatePoints r interpolatePoints : option JS.number)
  : Async unit :=
  fun w =>
    match position w with
    | None => throw (MkError "Actual position not set") w
    | Some ref =>
        let this_position := deref w ref in
        let '(p, r, actualInterpolatePoints) :=
          match r, interpolatePoints with
          | None, None =>
              (Types.p this_position, Types.r this_position,
               default 0%float pOrInterpolatePoints)
          | _, _ =>
              (default (Types.p this_position) pOrInterpolatePoints,
               default (Types.r this_position) r,
               default 0%float interpolatePoints)
          end in
        moveTo
          (Types.mkPosition
             (Types.x this_position + x) (Types.y this_position + y)
             (Types.z this_position + z) (Types.p this_position + p)
             (Types.r this_position + r))%float
          actualInterpolatePoints w
    end.

(** [getGripperClosed()] *)
Definition getGripperClosed (w : World) : bool := negb (toolIsOpen w).

(** [getPosition()]: the value of the field, a reference or [null]. *)
Definition getPosition (w : World) : option Ref := position w.

(** [getToolLength()] *)
Definition getToolLength (w : World) : JS.number := toolLength w.


(** [isConnected()]: [!!this.port?.isOpen] *)
Definition isConnected (w : World) : bool :=
  match port w with
  | Some sp => isOpen sp
  | None => false
  end.

(** [async moveToHomePosition()] *)
Definition moveToHomePosition : Async unit :=
  checkPortOpen ;;
  sendCommandNoAnswer "OG".

(** [async nest()] *)
Definition nest : Async unit :=
  checkPortOpen ;;
  sendCommandNoAnswer "NT".

(** [async reset()] *)
Definition reset : Async unit :=
  checkPortOpen ;;
  sendCommandNoAnswer "RS".

(** [async setGripPressure(startingGripForce, retainedGrippingForce,
    startGrippingForceRetentionTime)] *)
Definition setGripPressure
    (startingGripForce retainedGrippingForce
       startGrippingForceRetentionTime : JS.number) : Async unit :=
  checkPortOpen ;;
  if PrimFloat.ltb startingGripForce 0 || PrimFloat.ltb 15 startingGripForce
  then throw (MkError "Starting grip force must be between 0 and 15")
  else if PrimFloat.ltb retainedGrippingForce 0
          || PrimFloat.ltb 15 retainedGrippingForce
  then throw (MkError "Retained gripping force must be between 0 and 15")
  else if PrimFloat.ltb startGrippingForceRetentionTime 0
          || PrimFloat.ltb 99 startGrippingForceRetentionTime
  then throw (MkError
                "Start gripping force retention time must be between 0 and 99")
  else
    sendCommandNoAnswer
      ("GP " ++ JS.Number_toString startingGripForce ++ ", "
       ++ JS.Number_toString retainedGrippingForce ++ ", "
       ++ JS.Number_toString startGrippingForceRetentionTime).

(** [async rotateAxis(x, y, z, p, r)] *)
Definition rotateAxis (x y z p r : JS.number) : Async unit :=
  checkPortOpen ;;
  sendCommandNoAnswer ("MJ " ++ coordinates x y z p r) ;;
  _ <- getActualPosition true ;;
  ret tt.


End Robot.

(* ===================================================================== *)
(** * Vocabulary of the statements *)
(* ===================================================================== *)

Module Spec.

Import Runtime.

(** The failures of the specification's taxonomy, as the [Error] objects
    the source throws. *)
Definition PortNotOpen : Error := MkError "Port is not open".
Definition NoCachedPose : Error := MkError "Actual position not set".
Definition MalformedResponse : Error :=
  MkError "Invalid position response format".
Definition ValidationError : Error := MkError "Speed must be between 0 and 9".
Definition CommandError (code : Types.ROBOT_ERRORS) : Error :=
  MkError ("Command errored: " ++ JS.digitsOfZ (Types.ROBOT_ERRORS_value code)).

(** The connection is open. *)
Definition portOpen (w : World) : bool :=
  match port w with Some sp => isOpen sp | None => false end.

(** The registered "data" listeners. *)
Definition listeners (w : World) : list Listener :=
  match port w with Some sp => dataListeners sp | None => [] end.

(** The transport reports no error to write callbacks. *)
Definition writesSucceed (w : World) : bool :=
  match port w with
  | Some sp => match writeError sp with None => true | Some _ => false end
  | None => true
  end.

(** The cached pose, read through [this.position]. *)
Definition cachedPose (w : World) : option Types.Position :=
  match position w with Some ref => heap w !! ref | None => None end.

(** The world with [evs] appended to its time line. *)
Definition emit (evs : list Event) (w : World) : World :=
  set_timeline (timeline w ++ evs)%list w.

(** A freshly connected robot, the device about to deliver [feed]. *)
Definition connected (feed : list string) : World :=
  set_port (Some (mkSerialPort true [] feed None)) Robot.newRobot.

(** A connected robot whose cache holds [pose]. *)
Definition connectedAt (pose : Types.Position) : World :=
  set_position (Some 0%nat) (set_heap [pose] (connected [])).

(** The responses that data listeners handed to [resolve] of promise
    [pid], in order. *)
Definition handedTo (pid : nat) (rs : list (nat * string)) : list string :=
  map snd (List.filter (fun d => Nat.eqb (fst d) pid) rs).

Definition deliveredTo (pid : nat) (w : World) : list string :=
  handedTo pid (responses w).

(** The chunks arrive one after the other. *)
Definition deliverAll (chunks : list string) (w : World) : World :=
  fold_left (fun w' data => deliver data w') chunks w.

(** The number of places where the terminator occurs in [s]. *)
Fixpoint countCRLF (s : string) : nat :=
  match s with
  | EmptyString => 0
  | String _ s' => (if JS.startsWith s JS.CRLF then 1 else 0) + countCRLF s'
  end.

(** The text before the first terminator of [s]. *)
Fixpoint lineOf (s : string) : string :=
  match s with
  | EmptyString => EmptyString
  | String c s' => if JS.startsWith s JS.CRLF then EmptyString
                   else String c (lineOf s')
  end.

(** The chunks put end to end. *)
Definition concatenation (chunks : list string) : string :=
  fold_right String.append EmptyString chunks.

(** What has arrived after each chunk, starting from [acc]. *)
Fixpoint arrivals (acc : string) (chunks : list string) : list string :=
  match chunks with
  | [] => []
  | c :: cs => (acc ++ c) :: arrivals (acc ++ c) cs
  end.

(** Some chunk ends exactly at a terminator. *)
Definition chunkEndsAtTerminator (chunks : list string) : bool :=
  existsb (fun s => JS.endsWith s JS.CRLF) (arrivals EmptyString chunks).

(** One listener seen alone: its buffer and the responses it has handed
    to [resolve], before and after one chunk (the effect of [onData] on
    them). *)
Definition frameStep (st : string * list string) (data : string)
  : string * list string :=
  let buffer := fst st ++ data in
  if JS.endsWith buffer JS.CRLF
  then (EmptyString, (snd st ++ [JS.trim buffer])%list)
  else (buffer, snd st).

(** The state of a promise that was handed the responses [ds]: the first
    one settles it. *)
Definition settledBy (ds : list string) : PromiseState :=
  match ds with
  | [] => Unsettled
  | d :: _ => Resolved d
  end.

(** Promise [pid] has exactly one listener registered, whose buffer is
    [buf], and that listener has handed the responses [ds] to [resolve]. *)
Definition listening (pid : nat) (buf : string) (ds : list string)
    (w : World) : Prop :=
  exists old later : list Listener,
    listeners w = (old ++ mkListener pid buf :: later)%list
    /\ Forall (fun l => waiter l <> pid) old
    /\ Forall (fun l => waiter l <> pid) later
    /\ deliveredTo pid w = ds
    /\ promises w !! pid = Some (settledBy ds).

(** [s] is outside the interval [0, 9] (a NaN is in no interval). *)
Definition outside_0_9 (s : JS.number) : bool :=
  negb (PrimFloat.leb 0 s && PrimFloat.leb s 9).

(** Every listener and every recorded response belongs to a promise of
    the table. *)
Definition wellFormed (w : World) : Prop :=
  Forall (fun l => waiter l < length (promises w))%nat (listeners w)
  /\ Forall (fun d => fst d < length (promises w))%nat (responses w).


(** What the loop of [movePath] adds to the time line for the point of
    index [i]: the [PD] store into slot [i + 1], the settle delay of
    [sendCommandNoAnswer] and the delay of the loop body. *)
Definition storeEvents (i : nat) (point : Types.Position) : list Event :=
  [Wrote ("PD " ++ JS.digitsOfZ (Z.of_nat i + 1) ++ ", "
          ++ Utils.fmt (Types.x point) ++ ", " ++ Utils.fmt (Types.y point)
          ++ ", " ++ Utils.fmt (Types.z point) ++ ", "
          ++ Utils.fmt (Types.p point) ++ ", " ++ Utils.fmt (Types.r point)
          ++ JS.CRLF);
   Slept 100; Slept 100].

(** ** Sample data *)

(** The three poses of the README's path example. *)
Definition poseA : Types.Position := Types.mkPosition 100 50 200 0 0.
Definition poseB : Types.Position := Types.mkPosition 150 75 180 10 5.
Definition poseC : Types.Position := Types.mkPosition 200 100 160 0 0.

(** 50.7, the binary64 number nearest to it. *)
Definition fifty_point_seven : JS.number := 0x1.959999999999ap+5%float.

(** 5.9, the binary64 number nearest to it. *)
Definition five_point_nine : JS.number := 0x1.799999999999ap+2%float.

(** The answer of the specification's example, as the device sends it. *)
Definition exampleAnswer : string :=
  "+012.300, .500,-001.000,+000.000,+090.000" ++ JS.CRLF.

(** 12.3, the binary64 number nearest to it. *)
Definition twelve_point_three : JS.number := 0x1.899999999999ap+3%float.

(** ** Vocabulary of the further properties *)

(** What [moveTo] adds to the time line: one [MP] command, or the burst
    [PC 1], [PD 1, ...], [MS 1, n, flag] when [n] points are
    interpolated; [toolOpen] is the gripper flag when [MS] is built. *)
Definition moveEvents (pos : Types.Position) (interpolatePoints : JS.number)
    (toolOpen : bool) : list Event :=
  let coords :=
    Robot.coordinates (Types.x pos) (Types.y pos) (Types.z pos)
      (Types.p pos) (Types.r pos) in
  if PrimFloat.eqb interpolatePoints 0
  then [Wrote ("MP " ++ coords ++ JS.CRLF); Slept 100]
  else [Wrote ("PC 1" ++ JS.CRLF); Slept 100;
        Wrote ("PD 1, " ++ coords ++ JS.CRLF); Slept 100;
        Wrote ("MS 1, " ++ JS.Number_toString interpolatePoints ++ ", "
               ++ (if toolOpen then "C" else "O") ++ JS.CRLF);
        Slept 100].

(** The pose [pos] moved by the five deltas, with the additions of
    [number]. *)
Definition addDelta (pos : Types.Position) (x y z p r : JS.number)
  : Types.Position :=
  Types.mkPosition (Types.x pos + x) (Types.y pos + y) (Types.z pos + z)
    (Types.p pos + p) (Types.r pos + r).

(** The pose that the first five fields of an answer to ["WH"] denote. *)
Definition poseOfAnswer (response : string) : Types.Position :=
  let fields := JS.split response "," in
  Types.mkPosition
    (Robot.parsePart (nth 0 fields "")) (Robot.parsePart (nth 1 fields ""))
    (Robot.parsePart (nth 2 fields "")) (Robot.parsePart (nth 3 fields ""))
    (Robot.parsePart (nth 4 fields "")).

(** The first answer that the chunks give to a listener whose buffer is
    [acc]: what has arrived when, for the first time, the buffer ends with
    the terminator at the end of a chunk, trimmed. *)
Fixpoint firstAnswer (acc : string) (chunks : list string) : option string :=
  match chunks with
  | [] => None
  | c :: cs =>
      if JS.endsWith (acc ++ c) JS.CRLF then Some (JS.trim (acc ++ c))
      else firstAnswer (acc ++ c) cs
  end.

(** The chunks left once the first answer is complete. *)
Fixpoint afterFirstAnswer (acc : string) (chunks : list string)
  : list string :=
  match chunks with
  | [] => []
  | c :: cs =>
      if JS.endsWith (acc ++ c) JS.CRLF then cs
      else afterFirstAnswer (acc ++ c) cs
  end.

(** Every character of [s] is a decimal digit. *)
Fixpoint allDigits (s : string) : bool :=
  match s with
  | EmptyString => true
  | String c s' => JS.isDigit c && allDigits s'
  end.

(** [x] is a finite number of magnitude below [10^21], compared exactly. *)
Definition finiteBelow1e21 (x : JS.number) : bool :=
  match Prim2SF x with
  | S754_zero _ => true
  | S754_finite _ m e =>
      let (n, d) := JS.fraction m e in (n <? 10 ^ 21 * d)%Z
  | _ => false
  end.

(** The event is a write of a text that ends with the terminator, or no
    write at all. *)
Definition terminated (e : Event) : bool :=
  match e with
  | Wrote data => JS.endsWith data JS.CRLF
  | Slept _ => true
  end.

(** Whatever the world, [m] only appends to the time line, and every
    write it appends ends with the terminator. *)
Definition onlyTerminatedWrites {A : Type} (m : Async A) : Prop :=
  forall w : World,
    exists evs : list Event,
      timeline (snd (m w)) = (timeline w ++ evs)%list
      /\ forallb terminated evs = true.

End Spec.

(* ===================================================================== *)
(** * Properties *)
(* ===================================================================== *)

Import Runtime Robot Spec.

(** ** Strings *)

Lemma append_assoc (a b c : string) : (a ++ b) ++ c = a ++ (b ++ c).
Proof. induction a as [|ch a IH]; cbn; [reflexivity | now rewrite IH]. Qed.

Lemma append_empty_r (a : string) : a ++ "" = a.
Proof. induction a as [|ch a IH]; cbn; [reflexivity | now rewrite IH]. Qed.

Lemma startsWith_app (s p t : string) :
  JS.startsWith s p = true -> JS.startsWith (s ++ t) p = true.
Proof.
  revert p. induction s as [|c s IH]; intros [|b p]; cbn;
    try discriminate; try (now destruct t).
  intros [-> Hs]%andb_prop. now rewrite IH.
Qed.

Lemma endsWith_app (a p : string) : JS.endsWith (a ++ p) p = true.
Proof.
  induction a as [|c a IH]; cbn.
  - destruct p; cbn; [reflexivity|]. now rewrite Ascii.eqb_refl, String.eqb_refl.
  - rewrite IH. apply orb_true_r.
Qed.

Lemma endsWith_inv (s p : string) :
  JS.endsWith s p = true -> exists a, s = a ++ p.
Proof.
  induction s as [|c s IH]; cbn [JS.endsWith].
  - rewrite orb_false_r. intros ->%String.eqb_eq. now exists "".
  - intros [->%String.eqb_eq | H]%orb_prop; [now exists ""|].
    destruct (IH H) as [a ->]. now exists (String c a).
Qed.

Lemma trimEnd_CRLF (s : string) : JS.trimEnd (s ++ JS.CRLF) = JS.trimEnd s.
Proof.
  induction s as [|c s IH]; [reflexivity|].
  change (String c s ++ JS.CRLF) with (String c (s ++ JS.CRLF)).
  cbn [JS.trimEnd]. now rewrite IH.
Qed.

Lemma trim_CRLF (s : string) : JS.trim (s ++ JS.CRLF) = JS.trim s.
Proof.
  unfold JS.trim. induction s as [|c s IH]; [reflexivity|].
  change (String c s ++ JS.CRLF) with (String c (s ++ JS.CRLF)).
  cbn [JS.trimStart]. destruct (JS.isWhiteSpace c); [exact IH|].
  apply (trimEnd_CRLF (String c s)).
Qed.

(** ** Occurrences of the terminator *)

Lemma startsWith_CRLF_tail (c d : ascii) (t t' : string) :
  JS.startsWith (String c (String d t)) JS.CRLF
  = JS.startsWith (String c (String d t')) JS.CRLF.
Proof. cbn. now destruct t, t'. Qed.

Lemma countCRLF_app (a b : string) :
  (countCRLF a + countCRLF b <= countCRLF (a ++ b))%nat.
Proof.
  induction a as [|c a IH]; [cbn; lia|].
  change (String c a ++ b) with (String c (a ++ b)). cbn [countCRLF].
  destruct (JS.startsWith (String c a) JS.CRLF) eqn:E.
  - apply (startsWith_app _ _ b) in E.
    change (String c a ++ b) with (String c (a ++ b)) in E. rewrite E. lia.
  - destruct (JS.startsWith (String c (a ++ b)) JS.CRLF); lia.
Qed.

Lemma countCRLF_terminated (a : string) :
  (1 <= countCRLF (a ++ JS.CRLF))%nat.
Proof.
  induction a as [|c a IH]; [cbn; lia|].
  change (String c a ++ JS.CRLF) with (String c (a ++ JS.CRLF)).
  cbn [countCRLF]. lia.
Qed.

Lemma lineOf_terminated (a : string) :
  countCRLF (a ++ JS.CRLF) = 1%nat -> lineOf (a ++ JS.CRLF) = a.
Proof.
  induction a as [|c a IH]; [reflexivity|].
  change (String c a ++ JS.CRLF) with (String c (a ++ JS.CRLF)).
  cbn [countCRLF lineOf]. pose proof (countCRLF_terminated a).
  destruct (JS.startsWith (String c (a ++ JS.CRLF)) JS.CRLF); [lia|].
  intros Hc. now rewrite IH by lia.
Qed.

Lemma lineOf_app (a b : string) :
  (1 <= countCRLF a)%nat -> lineOf (a ++ b) = lineOf a.
Proof.
  induction a as [|c a IH]; [cbn; lia|].
  change (String c a ++ b) with (String c (a ++ b)). cbn [countCRLF lineOf].
  destruct (JS.startsWith (String c a) JS.CRLF) eqn:E.
  - apply (startsWith_app _ _ b) in E.
    change (String c a ++ b) with (String c (a ++ b)) in E. now rewrite E.
  - intros Hc. cbn in Hc. rewrite IH by exact Hc.
    destruct a as [|d a]; [cbn in Hc; lia|].
    change (String d a ++ b) with (String d (a ++ b)).
    now rewrite (startsWith_CRLF_tail c d (a ++ b) a), E.
Qed.

(** A buffer that ends with the only terminator of what is received is
    the first line and its terminator, and no terminator follows. *)
Lemma terminated_prefix (a b : string) :
  countCRLF (a ++ b) = 1%nat ->
  JS.endsWith a JS.CRLF = true ->
  countCRLF b = 0%nat /\ a = lineOf (a ++ b) ++ JS.CRLF.
Proof.
  intros Hc [a0 ->]%endsWith_inv.
  pose proof (countCRLF_app (a0 ++ JS.CRLF) b).
  pose proof (countCRLF_terminated a0).
  split; [lia|].
  rewrite lineOf_app by lia. rewrite lineOf_terminated; [reflexivity | lia].
Qed.

(** ** Fire-and-forget commands *)

Section FireAndForget.

Variable w : World.
Hypothesis Hopen : portOpen w = true.

Lemma checkPortOpen_open : checkPortOpen w = (Fulfilled tt, w).
Proof using Hopen.
  unfold portOpen in Hopen. unfold checkPortOpen.
  destruct (port w) as [sp|]; [|discriminate]. now rewrite Hopen.
Qed.

Lemma sendCommandNoAnswer_open (command : string) :
  sendCommandNoAnswer command w
  = (Fulfilled tt, emit [Wrote (command ++ JS.CRLF); Slept 100] w).
Proof using Hopen.
  unfold sendCommandNoAnswer, bind. rewrite checkPortOpen_open.
  unfold modify, delay, modify, write, emit. cbn.
  now rewrite <- app_assoc.
Qed.

End FireAndForget.

Lemma checkPortOpen_closed (w : World) :
  portOpen w = false -> checkPortOpen w = (Rejected PortNotOpen, w).
Proof.
  unfold portOpen, checkPortOpen, PortNotOpen.
  destruct (port w) as [sp|]; [|reflexivity]. now intros ->.
Qed.

Lemma emit_emit (a b : list Event) (w : World) :
  emit b (emit a w) = emit (a ++ b) w.
Proof. unfold emit. cbn. now rewrite <- app_assoc. Qed.

Lemma emit_nil (w : World) : emit [] w = w.
Proof. unfold emit. rewrite app_nil_r. now destruct w. Qed.

Lemma portOpen_emit (evs : list Event) (w : World) :
  portOpen (emit evs w) = portOpen w.
Proof. reflexivity. Qed.

(** ** movePath *)

Lemma movePathLoop_open (points : list Types.Position) :
  forall (k : nat) (w : World),
    portOpen w = true ->
    movePathLoop (Z.of_nat k) points w
    = (Fulfilled tt,
       emit (concat (imap (fun i => storeEvents (k + i)) points)) w).
Proof.
  induction points as [|point rest IH]; intros k w Hopen.
  - cbn. now rewrite emit_nil.
  - cbn [movePathLoop]. unfold bind at 1.
    rewrite (sendCommandNoAnswer_open _ Hopen).
    unfold bind at 1, delay, modify.
    replace (Z.of_nat k + 1)%Z with (Z.of_nat (S k)) by lia.
    rewrite IH by exact Hopen.
    f_equal. change (set_timeline _ (emit ?e w)) with (emit [Slept 100] (emit e w)).
    rewrite !emit_emit. f_equal.
    rewrite imap_cons. cbn [concat]. rewrite Nat.add_0_r.
    assert (Hcmd : storeEvents k point
                   = [Wrote (storeCommand (Z.of_nat k) point ++ JS.CRLF);
                      Slept 100; Slept 100]).
    { unfold storeEvents, storeCommand, coordinates, positionOffset.
      now rewrite !append_assoc. }
    rewrite Hcmd. cbn [app]. do 4 f_equal.
    apply imap_ext. intros i pt _. cbn. f_equal. lia.
Qed.

Lemma movePath_open (points : list Types.Position) (w : World) :
  portOpen w = true ->
  movePath points w
  = (Fulfilled tt,
     emit (concat (imap storeEvents points)
           ++ [Wrote ("MC 1, " ++ JS.digitsOfZ (Z.of_nat (length points))
                      ++ JS.CRLF);
               Slept 100]) w).
Proof.
  intros Hopen. unfold movePath, bind.
  rewrite (checkPortOpen_open w Hopen).
  rewrite (movePathLoop_open points 0 w Hopen
           : movePathLoop 0 points w
             = (Fulfilled tt, emit (concat (imap storeEvents points)) w)).
  rewrite sendCommandNoAnswer_open by exact Hopen.
  rewrite emit_emit. unfold positionOffset.
  replace (Z.of_nat (length points) - 1 + 1)%Z
    with (Z.of_nat (length points)) by lia.
  repeat f_equal.
Qed.

(** C6. For every non-empty sequence of N poses and every world whose
    port is open, [movePath] fulfils and adds to the time line, for each
    pose in order,
    the [PD] store into slot [i + 1] followed by the settle delays, and
    after the N stores exactly one [MC 1, N] command (with its settle
    delay) and nothing else. *)
Theorem movePath_stores_then_executes
    (points : list Types.Position) (w : World) :
  portOpen w = true ->
  points <> [] ->
  movePath points w
  = (Fulfilled tt,
     emit (concat (imap storeEvents points)
           ++ [Wrote ("MC 1, " ++ JS.digitsOfZ (Z.of_nat (length points))
                      ++ JS.CRLF);
               Slept 100]) w).
Proof. intros Hopen _. now apply movePath_open. Qed.

Lemma movePath_stores_then_executes_witness :
  movePath [poseA; poseB; poseC] (connected [])
  = (Fulfilled tt,
     emit [Wrote ("PD 1, 100.0, 50.0, 200.0, 0.0, 0.0" ++ JS.CRLF);
           Slept 100; Slept 100;
           Wrote ("PD 2, 150.0, 75.0, 180.0, 10.0, 5.0" ++ JS.CRLF);
           Slept 100; Slept 100;
           Wrote ("PD 3, 200.0, 100.0, 160.0, 0.0, 0.0" ++ JS.CRLF);
           Slept 100; Slept 100;
           Wrote ("MC 1, 3" ++ JS.CRLF); Slept 100] (connected [])).
Proof.
  rewrite (movePath_stores_then_executes [poseA; poseB; poseC] (connected []));
    [reflexivity | reflexivity | discriminate].
Defined.

(** C9. On an open port, [movePath] of the empty sequence writes no [PD]
    command and exactly one execute-range command, ["MC 1, 0"], and
    fulfils. *)
Theorem movePath_empty (w : World) :
  portOpen w = true ->
  movePath [] w
  = (Fulfilled tt, emit [Wrote ("MC 1, 0" ++ JS.CRLF); Slept 100] w).
Proof. intros Hopen. now rewrite movePath_open. Qed.

Lemma movePath_empty_witness :
  portOpen (connected []) = true
  /\ movePath [] (connected [])
     = (Fulfilled tt,
        emit [Wrote ("MC 1, 0" ++ JS.CRLF); Slept 100] (connected [])).
Proof.
  split; [reflexivity | apply (movePath_empty (connected [])); reflexivity].
Defined.

(** ** setToolLength and setSpeed *)

(** C10. On an open port, [setToolLength L] writes ["TL "] followed by
    [Math.floor(L)] and stores [L] itself, so [getToolLength] then returns
    [L]; when [L] is not an integer the cached value is not the value that
    was sent. *)
Theorem setToolLength_caches_untruncated (L : JS.number) (w : World) :
  portOpen w = true ->
  setToolLength L w
  = (Fulfilled tt,
     emit [Wrote ("TL " ++ JS.Number_toString (JS.Math_floor L) ++ JS.CRLF);
           Slept 100] (set_toolLength L w))
  /\ getToolLength (snd (setToolLength L w)) = L
  /\ (JS.Math_floor L <> L ->
      getToolLength (snd (setToolLength L w)) <> JS.Math_floor L).
Proof.
  intros Hopen.
  assert (Heq : setToolLength L w
                = (Fulfilled tt,
                   emit [Wrote ("TL " ++ JS.Number_toString (JS.Math_floor L)
                                ++ JS.CRLF); Slept 100] (set_toolLength L w))).
  { unfold setToolLength, bind. rewrite (checkPortOpen_open w Hopen).
    unfold modify. rewrite sendCommandNoAnswer_open by exact Hopen.
    now rewrite append_assoc. }
  rewrite Heq. repeat split. cbn. congruence.
Qed.

Lemma setToolLength_caches_untruncated_witness :
  setToolLength fifty_point_seven (connected [])
  = (Fulfilled tt,
     emit [Wrote ("TL 50" ++ JS.CRLF); Slept 100]
       (set_toolLength fifty_point_seven (connected [])))
  /\ getToolLength (snd (setToolLength fifty_point_seven (connected [])))
     = fifty_point_seven.
Proof.
  destruct (setToolLength_caches_untruncated fifty_point_seven (connected [])
              eq_refl) as (H1 & H2 & _).
  split; [rewrite H1; reflexivity | exact H2].
Defined.

(** C5, as the code has it. For every number [s] other than NaN, on an
    open port: [setSpeed s] rejects with the validation error, leaving the
    world as it was (nothing is written), exactly when [Math.floor(s)] is
    below 0 or above 9; otherwise it fulfils, caches [Math.floor(s)] and
    sends [SP] with that value. *)
Theorem setSpeed_validates_floor (s : JS.number) (w : World) :
  portOpen w = true ->
  PrimFloat.is_nan s = false ->
  setSpeed s w
  = if PrimFloat.ltb (JS.Math_floor s) 0 || PrimFloat.ltb 9 (JS.Math_floor s)
    then (Rejected ValidationError, w)
    else (Fulfilled tt,
          emit [Wrote ("SP " ++ JS.Number_toString (JS.Math_floor s)
                       ++ JS.CRLF); Slept 100]
            (set_speed (JS.Math_floor s) w)).
Proof.
  intros Hopen _. unfold setSpeed, bind. rewrite (checkPortOpen_open w Hopen).
  destruct (PrimFloat.ltb (JS.Math_floor s) 0 || PrimFloat.ltb 9 (JS.Math_floor s)).
  - reflexivity.
  - unfold modify. rewrite sendCommandNoAnswer_open by exact Hopen.
    now rewrite append_assoc.
Qed.

Lemma setSpeed_validates_floor_witness :
  setSpeed five_point_nine (connected [])
  = (Fulfilled tt,
     emit [Wrote ("SP 5" ++ JS.CRLF); Slept 100] (set_speed 5 (connected [])))
  /\ setSpeed (-0.5) (connected []) = (Rejected ValidationError, connected [])
  /\ setSpeed 10 (connected []) = (Rejected ValidationError, connected []).
Proof.
  split; [|split].
  - rewrite (setSpeed_validates_floor five_point_nine (connected []));
      reflexivity.
  - rewrite (setSpeed_validates_floor (-0.5) (connected [])); reflexivity.
  - rewrite (setSpeed_validates_floor 10 (connected [])); reflexivity.
Defined.

(** C5, as stated, fails at 9.5: the input lies outside [0, 9], yet
    [setSpeed] fulfils, caches 9 and sends ["SP 9"]. *)
Lemma setSpeed_accepts_9_5 :
  outside_0_9 9.5 = true
  /\ setSpeed 9.5 (connected [])
     = (Fulfilled tt,
        emit [Wrote ("SP 9" ++ JS.CRLF); Slept 100]
          (set_speed 9 (connected []))).
Proof. split; reflexivity. Qed.

(** For the record: a NaN passes the two comparisons as well. *)
Lemma setSpeed_accepts_NaN :
  setSpeed PrimFloat.nan (connected [])
  = (Fulfilled tt,
     emit [Wrote ("SP NaN" ++ JS.CRLF); Slept 100]
       (set_speed PrimFloat.nan (connected []))).
Proof. reflexivity. Qed.

(** ** Moves and the cached pose *)

Lemma moveTo_open (pos : Types.Position) (w : World) :
  portOpen w = true ->
  moveTo pos 0 w
  = (Fulfilled tt,
     set_position (Some (length (heap w)))
       (set_heap (heap w ++ [pos])%list
          (emit [Wrote ("MP " ++ coordinates (Types.x pos) (Types.y pos)
                          (Types.z pos) (Types.p pos) (Types.r pos)
                        ++ JS.CRLF); Slept 100] w))).
Proof.
  intros Hopen. destruct pos as [x y z p r]. unfold moveTo, bind.
  rewrite (checkPortOpen_open w Hopen).
  change (PrimFloat.eqb 0 0) with true. cbv iota.
  rewrite sendCommandNoAnswer_open by exact Hopen.
  rewrite append_assoc. reflexivity.
Qed.

(** The three-argument call adds the cached pitch and roll to
    themselves. *)
Lemma moveDelta_three_args (x y z : JS.number) (w : World) (ref : Ref) :
  position w = Some ref ->
  moveDelta x y z None None None w
  = moveTo (Types.mkPosition
              (Types.x (deref w ref) + x) (Types.y (deref w ref) + y)
              (Types.z (deref w ref) + z)
              (Types.p (deref w ref) + Types.p (deref w ref))
              (Types.r (deref w ref) + Types.r (deref w ref))) 0 w.
Proof. intros H. unfold moveDelta. now rewrite H. Qed.

(** Without a cached pose every call shape of [moveDelta] is rejected
    before anything is sent. *)
Lemma moveDelta_no_pose (x y z : JS.number) (a b c : option JS.number)
    (w : World) :
  position w = None ->
  moveDelta x y z a b c w = (Rejected NoCachedPose, w).
Proof. intros H. unfold moveDelta. now rewrite H. Qed.

(** The sibling [moveToXYZ] does reuse the cached pitch and roll. *)
Lemma moveToXYZ_reuses_pitch_roll :
  timeline (snd (moveToXYZ 11 2 3 0
                   (connectedAt (Types.mkPosition 10 0 0 5 5))))
  = [Wrote ("MP 11.0, 2.0, 3.0, 5.0, 5.0" ++ JS.CRLF); Slept 100].
Proof. reflexivity. Qed.

(** C1, at the specification's example. With the cached pose
    {x:10, y:0, z:0, p:5, r:5}, the call [moveDelta(1, 2, 3)] fulfils,
    but the absolute move it issues and caches is to
    {x:11, y:2, z:3, p:10, r:10}: pitch and roll are doubled, not reused
    unchanged. *)
Theorem moveDelta_three_args_example :
  let w := connectedAt (Types.mkPosition 10 0 0 5 5) in
  fst (moveDelta 1 2 3 None None None w) = Fulfilled tt
  /\ timeline (snd (moveDelta 1 2 3 None None None w))
     = [Wrote ("MP 11.0, 2.0, 3.0, 10.0, 10.0" ++ JS.CRLF); Slept 100]
  /\ cachedPose (snd (moveDelta 1 2 3 None None None w))
     = Some (Types.mkPosition 11 2 3 10 10).
Proof. cbv zeta. split; [|split]; vm_compute; reflexivity. Qed.

(** A cached read through [getActualPosition(false)] returns a new
    object: assignments through the returned reference leave the cached
    pose as it was. *)
Lemma getActualPosition_cached_is_copy
    (w : World) (ref : Ref) (pose : Types.Position) :
  position w = Some ref ->
  heap w !! ref = Some pose ->
  getActualPosition false w
  = (Fulfilled (length (heap w)), set_heap (heap w ++ [pose])%list w)
  /\ forall f : Types.Position -> Types.Position,
       cachedPose (assign (length (heap w)) f
                     (snd (getActualPosition false w))) = Some pose.
Proof.
  intros Hpos Hheap.
  assert (Heq : getActualPosition false w
                = (Fulfilled (length (heap w)),
                   set_heap (heap w ++ [pose])%list w)).
  { unfold getActualPosition, alloc, deref. cbn. rewrite Hpos, Hheap.
    reflexivity. }
  split; [exact Heq|]. intros f. rewrite Heq.
  unfold assign, cachedPose. cbn.
  rewrite lookup_app_r, Nat.sub_diag by lia. cbn. rewrite Hpos.
  rewrite list_lookup_insert_ne.
  - rewrite lookup_app_l; [exact Hheap | now apply lookup_lt_Some in Hheap].
  - apply lookup_lt_Some in Hheap. lia.
Qed.

(** C8, at a failing input. With the pose {1, 2, 3, 4, 5} cached,
    [getPosition()] returns the very reference held in [this.position]:
    the assignment [x = 99] through the returned reference changes the
    cached pose. *)
Theorem getPosition_returns_cache_reference :
  let w := connectedAt (Types.mkPosition 1 2 3 4 5) in
  exists ref : Ref,
    getPosition w = Some ref
    /\ position w = Some ref
    /\ cachedPose w = Some (Types.mkPosition 1 2 3 4 5)
    /\ cachedPose
         (assign ref
            (fun q => Types.mkPosition 99 (Types.y q) (Types.z q)
                        (Types.p q) (Types.r q)) w)
       = Some (Types.mkPosition 99 2 3 4 5).
Proof. exists 0%nat. repeat split. Qed.

(** ** The response framer *)

Lemma frame_none (chunks : list string) :
  forall (buf : string) (ds : list string),
    countCRLF (buf ++ concatenation chunks) = 0%nat ->
    snd (fold_left frameStep chunks (buf, ds)) = ds.
Proof.
  induction chunks as [|c cs IH]; intros buf ds Hc; [reflexivity|].
  cbn [fold_left concatenation fold_right] in *.
  fold (concatenation cs) in Hc. rewrite <- append_assoc in Hc.
  unfold frameStep at 2. cbn [fst snd].
  destruct (JS.endsWith (buf ++ c) JS.CRLF) eqn:E.
  - apply endsWith_inv in E as [a E]. rewrite E in Hc.
    pose proof (countCRLF_app (a ++ JS.CRLF) (concatenation cs)).
    pose proof (countCRLF_terminated a). lia.
  - now apply IH.
Qed.

Lemma frame_one (chunks : list string) :
  forall (buf : string) (ds : list string),
    countCRLF (buf ++ concatenation chunks) = 1%nat ->
    snd (fold_left frameStep chunks (buf, ds))
    = (ds ++ if existsb (fun s => JS.endsWith s JS.CRLF) (arrivals buf chunks)
             then [JS.trim (lineOf (buf ++ concatenation chunks))]
             else [])%list.
Proof.
  induction chunks as [|c cs IH]; intros buf ds Hc.
  - cbn. now rewrite app_nil_r.
  - cbn [fold_left concatenation fold_right arrivals existsb] in *.
    fold (concatenation cs) in *. rewrite <- append_assoc in *.
    unfold frameStep at 2. cbn [fst snd].
    destruct (JS.endsWith (buf ++ c) JS.CRLF) eqn:E; cbn [orb].
    + destruct (terminated_prefix _ _ Hc E) as [Hrest Hline].
      rewrite frame_none by exact Hrest.
      rewrite Hline at 1. now rewrite trim_CRLF.
    + now apply IH.
Qed.

(** When what is received ends with the terminator, the last chunk ends
    at it. *)
Lemma arrivals_last (chunks : list string) :
  forall buf : string,
    chunks <> [] ->
    JS.endsWith (buf ++ concatenation chunks) JS.CRLF = true ->
    existsb (fun s => JS.endsWith s JS.CRLF) (arrivals buf chunks) = true.
Proof.
  induction chunks as [|c cs IH]; intros buf Hne He; [congruence|].
  cbn [arrivals existsb concatenation fold_right] in *.
  fold (concatenation cs) in He. rewrite <- append_assoc in He.
  destruct cs as [|c' cs].
  - cbn in He. rewrite append_empty_r in He. now rewrite He.
  - rewrite IH; [apply orb_true_r | congruence | exact He].
Qed.

(** ** Data events in the world *)

Lemma resolve_other (pid q : nat) (v : string) (ps : list PromiseState) :
  q <> pid -> resolve q v ps !! pid = ps !! pid.
Proof.
  intros Hne. unfold resolve.
  destruct (ps !! q) as [[| |]|]; try reflexivity.
  now apply list_lookup_insert_ne.
Qed.

Lemma resolve_length (q : nat) (v : string) (ps : list PromiseState) :
  length (resolve q v ps) = length ps.
Proof.
  unfold resolve. destruct (ps !! q) as [[| |]|]; try reflexivity.
  apply length_insert.
Qed.

Lemma emitData_others (pid : nat) (data : string) (ls : list Listener) :
  forall (ps : list PromiseState) (rs : list (nat * string)),
    Forall (fun l => waiter l <> pid) ls ->
    Forall (fun l => waiter l <> pid) (fst (emitData data ls (ps, rs)))
    /\ fst (snd (emitData data ls (ps, rs))) !! pid = ps !! pid
    /\ handedTo pid (snd (snd (emitData data ls (ps, rs)))) = handedTo pid rs.
Proof.
  induction ls as [|l ls IH]; intros ps rs Hall; [now cbn|].
  apply Forall_cons in Hall as [Hl Hall]. cbn [emitData].
  unfold onData. cbn [fst snd].
  destruct (JS.endsWith (stringBuffer l ++ data) JS.CRLF).
  - match goal with
    | |- context [emitData data ls (?ps', ?rs')] =>
        destruct (IH ps' rs' Hall) as (H1 & H2 & H3);
        destruct (emitData data ls (ps', rs')) as [ls' [ps'' rs'']]
    end.
    cbn [fst snd] in *. split; [|split].
    + now constructor.
    + now rewrite H2, resolve_other.
    + rewrite H3. unfold handedTo. rewrite List.filter_app. cbn.
      apply Nat.eqb_neq in Hl. rewrite Hl. cbn. now rewrite app_nil_r.
  - destruct (IH ps rs Hall) as (H1 & H2 & H3).
    destruct (emitData data ls (ps, rs)) as [ls' [ps'' rs'']].
    cbn [fst snd] in *. split; [|split]; try assumption.
    now constructor.
Qed.

Lemma emitData_app (data : string) (ls1 ls2 : list Listener) :
  forall st : list PromiseState * list (nat * string),
    emitData data (ls1 ++ ls2) st
    = let (ls1', st1) := emitData data ls1 st in
      let (ls2', st2) := emitData data ls2 st1 in
      ((ls1' ++ ls2')%list, st2).
Proof.
  induction ls1 as [|l ls1 IH]; intros st.
  - cbn. now destruct (emitData data ls2 st).
  - cbn [emitData app]. destruct (onData data l st) as [l' st'].
    rewrite IH. destruct (emitData data ls1 st') as [ls1' st1].
    now destruct (emitData data ls2 st1).
Qed.

Lemma settledBy_snoc (d : string) (ds : list string) (ps : list PromiseState)
    (pid : nat) :
  ps !! pid = Some (settledBy ds) ->
  resolve pid d ps !! pid = Some (settledBy (ds ++ [d])).
Proof.
  intros H. unfold resolve. rewrite H. destruct ds as [|d0 ds]; cbn.
  - apply list_lookup_insert_eq. now apply lookup_lt_Some in H.
  - exact H.
Qed.

(** One chunk arrives: the listener of [pid] takes one framing step,
    whatever the other listeners do. *)
Lemma deliver_listening (pid : nat) (buf : string) (ds : list string)
    (data : string) (w : World) :
  listening pid buf ds w ->
  listening pid (fst (frameStep (buf, ds) data))
    (snd (frameStep (buf, ds) data)) (deliver data w).
Proof.
  intros (old & later & Hls & Hold & Hlater & Hds & Hps).
  unfold listeners in Hls. unfold deliver.
  destruct (port w) as [sp|] eqn:Hport; [|now destruct old].
  rewrite Hls, emitData_app.
  destruct (emitData_others pid data old (promises w) (responses w) Hold)
    as (H1 & H2 & H3).
  destruct (emitData data old (promises w, responses w)) as [old' [ps1 rs1]].
  cbn [fst snd] in H1, H2, H3. cbn [emitData]. unfold onData, frameStep.
  cbn [fst snd waiter stringBuffer].
  destruct (JS.endsWith (buf ++ data) JS.CRLF).
  - match goal with
    | |- context [emitData data later (?ps', ?rs')] =>
        destruct (emitData_others pid data later ps' rs' Hlater)
          as (K1 & K2 & K3);
        destruct (emitData data later (ps', rs')) as [later' [ps2 rs2]]
    end.
    cbn [fst snd] in K1, K2, K3.
    exists old', later'. unfold listeners, deliveredTo. cbn. repeat split.
    + exact H1.
    + exact K1.
    + change (handedTo pid rs2 = (ds ++ [JS.trim (buf ++ data)])%list).
      rewrite K3. unfold handedTo in *. rewrite List.filter_app, map_app.
      cbn. rewrite Nat.eqb_refl. cbn. now rewrite H3, <- Hds.
    + rewrite K2. apply settledBy_snoc. now rewrite H2.
  - destruct (emitData_others pid data later ps1 rs1 Hlater)
      as (K1 & K2 & K3).
    destruct (emitData data later (ps1, rs1)) as [later' [ps2 rs2]].
    cbn [fst snd] in K1, K2, K3.
    exists old', later'. unfold listeners, deliveredTo. cbn. repeat split.
    + exact H1.
    + exact K1.
    + change (handedTo pid rs2 = ds). now rewrite K3, H3.
    + now rewrite K2, H2.
Qed.

Lemma deliverAll_listening (chunks : list string) :
  forall (pid : nat) (buf : string) (ds : list string) (w : World),
    listening pid buf ds w ->
    listening pid (fst (fold_left frameStep chunks (buf, ds)))
      (snd (fold_left frameStep chunks (buf, ds))) (deliverAll chunks w).
Proof.
  induction chunks as [|c cs IH]; intros pid buf ds w H; [exact H|].
  cbn [deliverAll fold_left]. apply (deliver_listening _ _ _ c) in H.
  destruct (frameStep (buf, ds) c) as [buf' ds']. now apply IH.
Qed.

(** ** sendCommandWithAnswer *)

Section SendWithAnswer.

Variables (command : string) (w : World).
Hypothesis Hopen : portOpen w = true.
Hypothesis Hwrite : writesSucceed w = true.

(** On an open port whose writes succeed, every call writes the command,
    makes one new unsettled promise and registers one more listener. *)
Lemma sendCommandWithAnswer_open :
  fst (sendCommandWithAnswer command w) = length (promises w)
  /\ promises (snd (sendCommandWithAnswer command w))
     = (promises w ++ [Unsettled])%list
  /\ listeners (snd (sendCommandWithAnswer command w))
     = (listeners w ++ [mkListener (length (promises w)) EmptyString])%list
  /\ snd (sendCommandWithAnswer command w)
     = onDataListener (mkListener (length (promises w)) EmptyString)
         (set_promises (promises w ++ [Unsettled])%list
            (emit [Wrote (command ++ JS.CRLF)] w)).
Proof using Hopen Hwrite.
  unfold sendCommandWithAnswer, checkPortOpen, writeCallback, onDataListener,
    listeners, portOpen, writesSucceed in *. cbn.
  destruct (port w) as [sp|] eqn:Hp; [|discriminate]. rewrite Hopen. cbn.
  rewrite Hp. destruct (writeError sp) eqn:Hwe; [discriminate|]. cbn.
  rewrite Hp. repeat split. rewrite Hwe, Hopen. reflexivity.
Qed.

Lemma sendCommandWithAnswer_listening :
  wellFormed w ->
  listening (length (promises w)) EmptyString []
    (snd (sendCommandWithAnswer command w)).
Proof using Hopen Hwrite.
  intros [Hls Hrs].
  destruct sendCommandWithAnswer_open as (_ & Hps & Hl & Hw).
  exists (listeners w), []. repeat split.
  - exact Hl.
  - eapply Forall_impl; [exact Hls|]. cbn. intros l Hlt. lia.
  - constructor.
  - unfold deliveredTo. rewrite Hw.
    unfold onDataListener, handedTo. cbn.
    assert (Hr : responses
                   (match port w with
                    | Some sp =>
                        set_port
                          (Some (mkSerialPort (isOpen sp)
                                   (dataListeners sp
                                    ++ [mkListener (length (promises w)) ""])
                                   (incoming sp) (writeError sp)))
                          (set_promises (promises w ++ [Unsettled])
                             (emit [Wrote (command ++ JS.CRLF)] w))
                    | None =>
                        set_promises (promises w ++ [Unsettled])
                          (emit [Wrote (command ++ JS.CRLF)] w)
                    end) = responses w) by now destruct (port w).
    rewrite Hr. clear Hr.
    induction Hrs as [|d rs Hd Hrs IH]; [reflexivity|]. cbn.
    destruct (Nat.eqb_spec (fst d) (length (promises w))); [lia | exact IH].
  - rewrite Hps. cbn. rewrite lookup_app_r by lia.
    now rewrite Nat.sub_diag.
Qed.

End SendWithAnswer.

Lemma sendCommandWithAnswer_preserves (command : string) (w : World) :
  portOpen w = true ->
  writesSucceed w = true ->
  portOpen (snd (sendCommandWithAnswer command w)) = true
  /\ writesSucceed (snd (sendCommandWithAnswer command w)) = true
  /\ responses (snd (sendCommandWithAnswer command w)) = responses w
  /\ (wellFormed w -> wellFormed (snd (sendCommandWithAnswer command w))).
Proof.
  intros Hopen Hwrite.
  destruct (sendCommandWithAnswer_open command w Hopen Hwrite)
    as (_ & Hps & Hl & Hw).
  assert (Hr : responses (snd (sendCommandWithAnswer command w)) = responses w).
  { rewrite Hw. unfold onDataListener. cbn. now destruct (port w). }
  repeat split.
  - rewrite Hw. clear -Hopen.
    destruct w as [[sp|] ? ? ? ? ? ? ? ? ?]; [exact Hopen | discriminate].
  - rewrite Hw. clear -Hwrite.
    destruct w as [[sp|] ? ? ? ? ? ? ? ? ?]; [exact Hwrite | reflexivity].
  - exact Hr.
  - rewrite Hl, Hps. apply Forall_app. split.
    + eapply Forall_impl; [apply H|]. cbn. intros l Hlt.
      rewrite length_app. cbn. lia.
    + repeat constructor. cbn. rewrite length_app. cbn. lia.
  - rewrite Hr, Hps. eapply Forall_impl; [apply H|]. cbn. intros d Hlt.
    rewrite length_app. cbn. lia.
Qed.

(** A later call leaves an earlier listener registered and untouched. *)
Lemma sendCommandWithAnswer_keeps_listening
    (command : string) (w : World) (pid : nat) (buf : string)
    (ds : list string) :
  portOpen w = true ->
  writesSucceed w = true ->
  listening pid buf ds w ->
  listening pid buf ds (snd (sendCommandWithAnswer command w)).
Proof.
  intros Hopen Hwrite (old & later & Hls & Hold & Hlater & Hds & Hps).
  destruct (sendCommandWithAnswer_open command w Hopen Hwrite)
    as (_ & Hps' & Hl & _).
  destruct (sendCommandWithAnswer_preserves command w Hopen Hwrite)
    as (_ & _ & Hr & _).
  pose proof (lookup_lt_Some _ _ _ Hps) as Hlt.
  exists old, (later ++ [mkListener (length (promises w)) ""])%list.
  repeat split.
  - rewrite Hl, Hls. now rewrite <- app_assoc.
  - exact Hold.
  - apply Forall_app. split; [exact Hlater|]. repeat constructor. cbn. lia.
  - unfold deliveredTo in *. now rewrite Hr.
  - rewrite Hps'. now rewrite lookup_app_l.
Qed.

(** C3, as the code has it. A command is sent on an open port and the
    device's chunks arrive; what they add up to contains the terminator
    exactly once.  Then the waiting promise is handed exactly one
    response, the first line trimmed, and is resolved with it, if some
    chunk ends exactly at the terminator; otherwise it is handed nothing
    and stays unsettled.  When the terminator ends what was received,
    some chunk does end at it, however the bytes were split. *)
Theorem framing_one_line (command : string) (chunks : list string)
    (w : World) :
  portOpen w = true ->
  writesSucceed w = true ->
  wellFormed w ->
  countCRLF (concatenation chunks) = 1%nat ->
  let pid := fst (sendCommandWithAnswer command w) in
  let w' := deliverAll chunks (snd (sendCommandWithAnswer command w)) in
  deliveredTo pid w'
  = (if chunkEndsAtTerminator chunks
     then [JS.trim (lineOf (concatenation chunks))] else [])
  /\ promises w' !! pid
     = Some (if chunkEndsAtTerminator chunks
             then Resolved (JS.trim (lineOf (concatenation chunks)))
             else Unsettled)
  /\ (JS.endsWith (concatenation chunks) JS.CRLF = true ->
      chunkEndsAtTerminator chunks = true).
Proof.
  intros Hopen Hwrite Hwf Hc pid w'.
  pose proof (sendCommandWithAnswer_listening command w Hopen Hwrite Hwf) as Hl.
  destruct (sendCommandWithAnswer_open command w Hopen Hwrite) as (Hpid & _).
  apply (deliverAll_listening chunks) in Hl.
  rewrite (frame_one chunks "" [] Hc) in Hl. cbn [app] in Hl.
  fold (chunkEndsAtTerminator chunks) in Hl.
  change ("" ++ concatenation chunks) with (concatenation chunks) in Hl.
  destruct Hl as (old & later & _ & _ & _ & Hds & Hps).
  subst pid w'. rewrite Hpid. split; [exact Hds|]. split.
  - rewrite Hps. now destruct (chunkEndsAtTerminator chunks).
  - intros He. apply (arrivals_last chunks ""); [|exact He].
    intros ->. cbn in Hc. discriminate.
Qed.

Lemma framing_one_line_witness :
  let chunks := ["+012"; ".3,0,0"; ",0,0" ++ JS.CRLF] in
  let w' := deliverAll chunks (snd (sendCommandWithAnswer "WH" (connected []))) in
  deliveredTo 0 w' = ["+012.3,0,0,0,0"]
  /\ promises w' !! 0%nat = Some (Resolved "+012.3,0,0,0,0").
Proof.
  cbv zeta.
  assert (Hwf : wellFormed (connected [])) by (split; constructor).
  destruct (framing_one_line "WH" ["+012"; ".3,0,0"; ",0,0" ++ JS.CRLF]
              (connected []) eq_refl eq_refl Hwf eq_refl) as (H1 & H2 & _).
  split; [exact H1 | exact H2].
Defined.

(** C3, as stated, fails when a byte follows the terminator in the same
    chunk: what is received contains one terminated line, ["OK"], yet no
    response is delivered and the promise stays unsettled; split after
    the terminator, the same bytes do deliver it. *)
Lemma framing_depends_on_chunking :
  let one := ["OK" ++ JS.CRLF ++ "X"] in
  let two := ["OK" ++ JS.CRLF; "X"] in
  let w1 := snd (sendCommandWithAnswer "ER" (connected [])) in
  concatenation one = concatenation two
  /\ countCRLF (concatenation one) = 1%nat
  /\ lineOf (concatenation one) = "OK"
  /\ deliveredTo 0 (deliverAll one w1) = []
  /\ promises (deliverAll one w1) !! 0%nat = Some Unsettled
  /\ deliveredTo 0 (deliverAll two w1) = ["OK"].
Proof. cbv zeta. repeat split. Qed.

(** C2, as the code has it. There is no single-consumer guard: on an
    open port whose writes succeed, a second [sendCommandWithAnswer] made
    while the first promise is unsettled is not rejected; it returns
    another unsettled promise and registers one more listener next to the
    first, and a chunk ending with the terminator that arrives then
    resolves both promises with the same response. *)
Theorem second_request_registers_second_listener
    (first second : string) (w : World) :
  portOpen w = true ->
  writesSucceed w = true ->
  wellFormed w ->
  let p1 := fst (sendCommandWithAnswer first w) in
  let w1 := snd (sendCommandWithAnswer first w) in
  let p2 := fst (sendCommandWithAnswer second w1) in
  let w2 := snd (sendCommandWithAnswer second w1) in
  p1 <> p2
  /\ promises w2 !! p1 = Some Unsettled
  /\ promises w2 !! p2 = Some Unsettled
  /\ listeners w2
     = (listeners w ++ [mkListener p1 EmptyString; mkListener p2 EmptyString])%list
  /\ forall reply : string,
       JS.endsWith reply JS.CRLF = true ->
       promises (deliver reply w2) !! p1 = Some (Resolved (JS.trim reply))
       /\ promises (deliver reply w2) !! p2 = Some (Resolved (JS.trim reply)).
Proof.
  intros Hopen Hwrite Hwf p1 w1 p2 w2.
  destruct (sendCommandWithAnswer_open first w Hopen Hwrite)
    as (Hp1 & Hps1 & Hl1 & _).
  destruct (sendCommandWithAnswer_preserves first w Hopen Hwrite)
    as (Hopen1 & Hwrite1 & _ & Hwf1).
  specialize (Hwf1 Hwf). fold w1 in Hopen1, Hwrite1, Hwf1, Hps1, Hl1.
  destruct (sendCommandWithAnswer_open second w1 Hopen1 Hwrite1)
    as (Hp2 & Hps2 & Hl2 & _).
  pose proof (sendCommandWithAnswer_listening first w Hopen Hwrite Hwf) as L1.
  fold w1 in L1.
  apply (sendCommandWithAnswer_keeps_listening second w1 _ _ _ Hopen1 Hwrite1)
    in L1.
  pose proof (sendCommandWithAnswer_listening second w1 Hopen1 Hwrite1 Hwf1)
    as L2.
  fold w2 in L1, L2, Hps2, Hl2. fold p1 in Hp1. fold p2 in Hp2.
  rewrite <- Hp1 in L1. rewrite <- Hp2 in L2.
  assert (Hne : p1 <> p2).
  { rewrite Hp1, Hp2, Hps1, length_app. cbn. lia. }
  split; [exact Hne|].
  split; [now destruct L1 as (? & ? & _ & _ & _ & _ & H)|].
  split; [now destruct L2 as (? & ? & _ & _ & _ & _ & H)|].
  split.
  - rewrite Hl2, Hl1, <- app_assoc. cbn. now rewrite Hp1, Hp2.
  - intros reply He.
    apply (deliver_listening _ _ _ reply) in L1, L2.
    unfold frameStep in L1, L2. cbn [fst snd] in L1, L2.
    change ("" ++ reply) with reply in L1, L2. rewrite He in L1, L2.
    cbn [fst snd app] in L1, L2.
    split; [now destruct L1 as (? & ? & _ & _ & _ & _ & H)
           |now destruct L2 as (? & ? & _ & _ & _ & _ & H)].
Qed.

Lemma second_request_registers_second_listener_witness :
  let w1 := snd (sendCommandWithAnswer "WH" (connected [])) in
  let w2 := snd (sendCommandWithAnswer "ER" w1) in
  promises w2 = [Unsettled; Unsettled]
  /\ listeners w2 = [mkListener 0 EmptyString; mkListener 1 EmptyString]
  /\ promises (deliver ("0" ++ JS.CRLF) w2) !! 0%nat = Some (Resolved "0")
  /\ promises (deliver ("0" ++ JS.CRLF) w2) !! 1%nat = Some (Resolved "0").
Proof.
  cbv zeta.
  assert (Hwf : wellFormed (connected [])) by (split; constructor).
  destruct (second_request_registers_second_listener "WH" "ER" (connected [])
              eq_refl eq_refl Hwf) as (_ & _ & _ & Hl & Hd).
  destruct (Hd ("0" ++ JS.CRLF) eq_refl) as [H1 H2].
  split; [reflexivity|]. split; [exact Hl|]. split; [exact H1 | exact H2].
Defined.

(** C2, as stated, fails: with a first request still awaiting its
    response, the second one is not rejected (its promise is unsettled,
    not failed), two listeners are registered, and the single response
    that arrives is delivered to both waiters. *)
Lemma second_request_is_not_rejected :
  let w1 := snd (sendCommandWithAnswer "WH" (connected [])) in
  let p2 := fst (sendCommandWithAnswer "ER" w1) in
  let w2 := snd (sendCommandWithAnswer "ER" w1) in
  promises w1 !! 0%nat = Some Unsettled
  /\ promises w2 !! p2 = Some Unsettled
  /\ length (listeners w2) = 2%nat
  /\ responses (deliver ("0" ++ JS.CRLF) w2) = [(0%nat, "0"); (1%nat, "0")].
Proof. cbv zeta. repeat split. Qed.

(** ** Awaiting an answer *)

Lemma deliver_timeline (data : string) (w : World) :
  timeline (deliver data w) = timeline w.
Proof.
  unfold deliver. destruct (port w) as [sp|]; [|reflexivity].
  now destruct (emitData data (dataListeners sp) (promises w, responses w))
    as [ls [ps rs]].
Qed.

Lemma set_incoming_timeline (chunks : list string) (w : World) :
  timeline (set_incoming chunks w) = timeline w.
Proof. unfold set_incoming. now destruct (port w). Qed.

Lemma awaitWith_timeline (pid : nat) (feed : list string) :
  forall w : World, timeline (snd (awaitWith pid feed w)) = timeline w.
Proof.
  induction feed as [|data feed IH]; intros w; cbn [awaitWith].
  - now destruct (promises w !! pid) as [[| |]|].
  - destruct (promises w !! pid) as [[| |]|]; try reflexivity;
      now rewrite IH, deliver_timeline, set_incoming_timeline.
Qed.

(** Whatever the answer, awaiting it on an open port has written the
    command, once, and nothing else. *)
Lemma awaitAnswer_timeline (command : string) (w : World) :
  portOpen w = true ->
  timeline (snd (awaitAnswer command w))
  = (timeline w ++ [Wrote (command ++ JS.CRLF)])%list.
Proof.
  intros Hopen. unfold awaitAnswer.
  destruct (sendCommandWithAnswer command w) as [pid w1] eqn:E.
  unfold await. rewrite awaitWith_timeline.
  change w1 with (snd (pid, w1)). rewrite <- E. clear E.
  unfold sendCommandWithAnswer, checkPortOpen, writeCallback, onDataListener,
    portOpen in *.
  destruct w as [[sp|] ? ? ? ? ? ? ? ? ?]; [|discriminate]. cbn in *.
  rewrite Hopen. cbn. now destruct (writeError sp).
Qed.

Lemma listening_set_incoming (pid : nat) (buf : string) (ds : list string)
    (chunks : list string) (w : World) :
  listening pid buf ds w -> listening pid buf ds (set_incoming chunks w).
Proof.
  intros (old & later & Hls & Hold & Hlater & Hds & Hps).
  exists old, later. unfold deliveredTo, listeners, set_incoming in *.
  destruct (port w) eqn:E; cbn in *; rewrite ?E; repeat split; assumption.
Qed.

(** The device answers with one chunk that ends with the terminator: the
    caller resumes with that chunk trimmed. *)
Lemma awaitAnswer_single_chunk (command reply : string) (rest : list string)
    (w : World) :
  portOpen w = true ->
  writesSucceed w = true ->
  wellFormed w ->
  pendingInput w = reply :: rest ->
  JS.endsWith reply JS.CRLF = true ->
  fst (awaitAnswer command w) = Fulfilled (JS.trim reply).
Proof.
  intros Hopen Hwrite Hwf Hin He. unfold awaitAnswer.
  pose proof (sendCommandWithAnswer_listening command w Hopen Hwrite Hwf) as L.
  destruct (sendCommandWithAnswer_open command w Hopen Hwrite)
    as (Hpid & _ & _ & Hw).
  destruct (sendCommandWithAnswer command w) as [pid w1]. cbn [fst snd] in *.
  subst pid. unfold await.
  assert (Hin1 : pendingInput w1 = reply :: rest).
  { rewrite Hw, <- Hin. clear.
    now destruct w as [[sp|] ? ? ? ? ? ? ? ? ?]. }
  rewrite Hin1. cbn [awaitWith].
  pose proof L as (_ & _ & _ & _ & _ & _ & Hps). rewrite Hps. cbn [settledBy].
  apply (listening_set_incoming _ _ _ rest) in L.
  apply (deliver_listening _ _ _ reply) in L.
  unfold frameStep in L. cbn [fst snd] in L.
  change ("" ++ reply) with reply in L. rewrite He in L. cbn [fst snd app] in L.
  destruct L as (_ & _ & _ & _ & _ & _ & Hps').
  destruct rest; cbn [awaitWith]; now rewrite Hps'.
Qed.

Lemma deliver_cache (data : string) (w : World) :
  position (deliver data w) = position w /\ heap (deliver data w) = heap w.
Proof.
  unfold deliver. destruct (port w) as [sp|]; [|now split].
  now destruct (emitData data (dataListeners sp) (promises w, responses w))
    as [ls [ps rs]].
Qed.

Lemma awaitWith_cache (pid : nat) (feed : list string) :
  forall w : World,
    position (snd (awaitWith pid feed w)) = position w
    /\ heap (snd (awaitWith pid feed w)) = heap w.
Proof.
  induction feed as [|data feed IH]; intros w; cbn [awaitWith].
  - now destruct (promises w !! pid) as [[| |]|].
  - destruct (promises w !! pid) as [[| |]|]; try (now split);
      destruct (IH (deliver data (set_incoming feed w))) as [-> ->];
      destruct (deliver_cache data (set_incoming feed w)) as [-> ->];
      unfold set_incoming; now destruct (port w).
Qed.

(** Sending a command and awaiting its answer leaves the cached pose and
    the object store as they were. *)
Lemma awaitAnswer_cache (command : string) (w : World) :
  cachedPose (snd (awaitAnswer command w)) = cachedPose w.
Proof.
  unfold awaitAnswer.
  destruct (sendCommandWithAnswer command w) as [pid w1] eqn:E.
  unfold await, cachedPose.
  destruct (awaitWith_cache pid (pendingInput w1) w1) as [-> ->].
  change w1 with (snd (pid, w1)). rewrite <- E. clear E.
  unfold sendCommandWithAnswer, checkPortOpen, writeCallback, onDataListener.
  destruct w as [[sp|] ? ? ? ? ? ? ? ? ?]; [|reflexivity]. cbn.
  destruct (isOpen sp); [|reflexivity]. cbn. now destruct (writeError sp).
Qed.

(** ** getActualPosition *)

(** C4, as the code has it. When the answer to ["WH"] is [response]
    (already trimmed by the framer), the forced pose query splits it at
    the commas and parses each field by [parsePart] (trim, remove the
    first ["+"], put ["0"] before a leading ["."], [parseFloat]).  It
    rejects with the malformed-response error exactly when there are
    fewer than five fields, leaving the cache as it was; otherwise it
    stores the first five parsed numbers as the cached pose and returns a
    second, new object with the same numbers. *)
Theorem getActualPosition_forced (w w1 : World) (response : string) :
  awaitAnswer "WH" w = (Fulfilled response, w1) ->
  let fields := JS.split response "," in
  let pose :=
    Types.mkPosition
      (parsePart (nth 0 fields "")) (parsePart (nth 1 fields ""))
      (parsePart (nth 2 fields "")) (parsePart (nth 3 fields ""))
      (parsePart (nth 4 fields "")) in
  ((length fields < 5)%nat ->
   getActualPosition true w = (Rejected MalformedResponse, w1)
   /\ cachedPose w1 = cachedPose w)
  /\ ((5 <= length fields)%nat ->
      getActualPosition true w
      = (Fulfilled (S (length (heap w1))),
         set_heap (heap w1 ++ [pose; pose])%list
           (set_position (Some (length (heap w1))) w1))
      /\ cachedPose (snd (getActualPosition true w)) = Some pose
      /\ heap (snd (getActualPosition true w)) !! S (length (heap w1))
         = Some pose).
Proof.
  intros Hans fields pose.
  assert (Hparts : forall i, (i < length fields)%nat ->
            nth i (map parsePart fields) PrimFloat.nan
            = parsePart (nth i fields "")).
  { intros i Hi. rewrite (nth_indep _ _ (parsePart "")); [apply map_nth|].
    now rewrite length_map. }
  assert (Hrun : getActualPosition true w
                 = if (length fields <? 5)%nat
                   then (Rejected MalformedResponse, w1)
                   else (Fulfilled (S (length (heap w1))),
                         set_heap (heap w1 ++ [pose; pose])%list
                           (set_position (Some (length (heap w1))) w1))).
  { unfold getActualPosition. cbn [negb].
    unfold bind at 1. rewrite Hans. fold fields.
    rewrite length_map.
    destruct (Nat.ltb_spec (length fields) 5) as [Hlt|Hge]; [reflexivity|].
    rewrite !Hparts by lia. fold pose.
    unfold bind, alloc, modify. cbn. rewrite length_app. cbn.
    rewrite Nat.add_1_r. rewrite <- app_assoc. reflexivity. }
  split.
  - intros Hlt. rewrite Hrun. split.
    + now destruct (Nat.ltb_spec (length fields) 5); [|lia].
    + pose proof (awaitAnswer_cache "WH" w) as Hc. now rewrite Hans in Hc.
  - intros Hge. rewrite Hrun.
    destruct (Nat.ltb_spec (length fields) 5); [lia|].
    split; [reflexivity|]. unfold cachedPose. cbn. split.
    + rewrite lookup_app_r by lia. now rewrite Nat.sub_diag.
    + rewrite lookup_app_r by lia.
      now replace (S (length (heap w1)) - length (heap w1))%nat with 1%nat by lia.
Qed.

Lemma getActualPosition_forced_witness :
  let w := connected [exampleAnswer] in
  fst (getActualPosition true w) = Fulfilled 1%nat
  /\ cachedPose (snd (getActualPosition true w))
     = Some (Types.mkPosition twelve_point_three 0.5 (-1) 0 90)
  /\ heap (snd (getActualPosition true w)) !! 1%nat
     = Some (Types.mkPosition twelve_point_three 0.5 (-1) 0 90)
  /\ getActualPosition true (connected ["1,2,3,4" ++ JS.CRLF])
     = (Rejected MalformedResponse,
        snd (awaitAnswer "WH" (connected ["1,2,3,4" ++ JS.CRLF]))).
Proof.
  cbv zeta.
  pose proof (getActualPosition_forced (connected [exampleAnswer])
                (snd (awaitAnswer "WH" (connected [exampleAnswer])))
                "+012.300, .500,-001.000,+000.000,+090.000") as Hgood.
  destruct Hgood as [_ Hok]; [vm_compute; reflexivity|].
  destruct Hok as (Hrun & Hcache & Hcopy); [vm_compute; lia|].
  pose proof (getActualPosition_forced (connected ["1,2,3,4" ++ JS.CRLF])
                (snd (awaitAnswer "WH" (connected ["1,2,3,4" ++ JS.CRLF])))
                "1,2,3,4") as Hfew.
  destruct Hfew as [Hbad _]; [vm_compute; reflexivity|].
  destruct Hbad as [Hbad _]; [vm_compute; lia|].
  split; [rewrite Hrun; reflexivity|].
  split; [rewrite Hcache; vm_compute; reflexivity|].
  split; [vm_compute in Hcopy |- *; exact Hcopy|].
  exact Hbad.
Defined.

(** C4, as stated, fails on an answer with five fields none of which is
    a number: the query does not reject, it caches and returns a pose of
    five NaN.  And it is the first ["+"] of a field that is removed,
    leading or not: ["1+2"] is read as 12, where [parseFloat] of the field
    itself gives 1. *)
Lemma getActualPosition_accepts_unparsable_fields :
  let w := connected ["a,b,c,d,e" ++ JS.CRLF] in
  PrimFloat.is_nan (parsePart "a") = true
  /\ fst (getActualPosition true w) = Fulfilled 1%nat
  /\ cachedPose (snd (getActualPosition true w)) = Some NaNPosition
  /\ parsePart "1+2" = 12%float
  /\ JS.parseFloat "1+2" = 1%float.
Proof. cbv zeta. repeat split. Qed.

(** ** The error code and withCheck *)

Lemma SFeqb_finite_inv (f : spec_float) (s : bool) (m : positive) (e : Z) :
  SFeqb f (S754_finite s m e) = true -> f = S754_finite s m e.
Proof.
  unfold SFeqb. destruct f as [b|b| |s' m' e']; cbn.
  - destruct s; discriminate.
  - destruct b; discriminate.
  - discriminate.
  - destruct s', s; try discriminate;
      destruct (Z.compare_spec e' e) as [->| |]; try discriminate;
      change (Pos.compare_cont Eq m' m) with (Pos.compare m' m);
      destruct (Pos.compare_spec m' m) as [->| |]; cbn; try discriminate;
      reflexivity.
Qed.

Lemma SFeqb_zero_inv (f : spec_float) (b : bool) :
  SFeqb f (S754_zero b) = true -> f = S754_zero false \/ f = S754_zero true.
Proof.
  unfold SFeqb. destruct f as [[|]|[|]| |[|] m e]; cbn; try discriminate; auto.
Qed.

(** The three codes are told apart by [===]: a number equal to one of
    them is no NaN and equals no other. *)
Lemma code_zero (c : JS.number) :
  PrimFloat.eqb c 0 = true -> PrimFloat.is_nan c = false.
Proof.
  unfold PrimFloat.is_nan. rewrite !FloatAxioms.eqb_spec.
  replace (Prim2SF 0) with (S754_zero false) by reflexivity.
  now intros [-> | ->]%SFeqb_zero_inv.
Qed.

Lemma code_one (c : JS.number) :
  PrimFloat.eqb c 1 = true ->
  PrimFloat.is_nan c = false /\ PrimFloat.eqb c 0 = false.
Proof.
  unfold PrimFloat.is_nan. rewrite !FloatAxioms.eqb_spec.
  replace (Prim2SF 1) with (S754_finite false 4503599627370496 (-52))
    by reflexivity.
  intros ->%SFeqb_finite_inv. split; reflexivity.
Qed.

Lemma code_two (c : JS.number) :
  PrimFloat.eqb c 2 = true ->
  PrimFloat.is_nan c = false /\ PrimFloat.eqb c 0 = false
  /\ PrimFloat.eqb c 1 = false.
Proof.
  unfold PrimFloat.is_nan. rewrite !FloatAxioms.eqb_spec.
  replace (Prim2SF 2) with (S754_finite false 4503599627370496 (-51))
    by reflexivity.
  intros ->%SFeqb_finite_inv. repeat split.
Qed.

(** The mapping of [checkRobotErrorCode], by the number [parseInt] reads
    from the answer. *)
Lemma errorResultOf_mapping (res : string) :
  (PrimFloat.eqb (JS.parseInt res) 0 = true -> errorResultOf res = Ok)
  /\ (PrimFloat.eqb (JS.parseInt res) 1 = true ->
      errorResultOf res = NotOk Types.HARDWARE_ERROR)
  /\ (PrimFloat.eqb (JS.parseInt res) 2 = true ->
      errorResultOf res = NotOk Types.COMMAND_ERROR)
  /\ (PrimFloat.eqb (JS.parseInt res) 0 = false ->
      PrimFloat.eqb (JS.parseInt res) 1 = false ->
      PrimFloat.eqb (JS.parseInt res) 2 = false ->
      errorResultOf res = NotOk Types.UNKNOWN_ERROR).
Proof.
  unfold errorResultOf. repeat split.
  - intros H. now rewrite (code_zero _ H), H.
  - intros H. destruct (code_one _ H) as [-> ->]. now rewrite H.
  - intros H. destruct (code_two _ H) as (-> & -> & ->). now rewrite H.
  - intros -> -> ->. now destruct (PrimFloat.is_nan (JS.parseInt res)).
Qed.

Lemma errorResultOf_examples :
  errorResultOf "0" = Ok
  /\ errorResultOf "1" = NotOk Types.HARDWARE_ERROR
  /\ errorResultOf "2" = NotOk Types.COMMAND_ERROR
  /\ errorResultOf "3" = NotOk Types.UNKNOWN_ERROR
  /\ errorResultOf "" = NotOk Types.UNKNOWN_ERROR
  /\ errorResultOf "error" = NotOk Types.UNKNOWN_ERROR.
Proof. repeat split. Qed.

(** C7. [withCheck operation] runs the operation first.  A rejection of
    the operation is the rejection of [withCheck], in the world the
    operation left (no ["ER"] is sent).  After a fulfilled operation, on
    an open port, it sends ["ER"] once; with the answer [res] it fulfils
    with the operation's own result when the mapped code is [Ok], and
    otherwise rejects with the command error that carries the mapped
    code, whatever the operation returned.  The code is mapped from the
    number [parseInt] reads: 0 to [Ok], 1 to the hardware error, 2 to the
    command or position error, any other number and an unparsable answer
    to the unknown error. *)
Theorem withCheck_checks_after_success
    {T : Type} (operation : Async T) (w : World) :
  (forall (e : Error) (w1 : World),
      operation w = (Rejected e, w1) ->
      withCheck operation w = (Rejected e, w1))
  /\ (forall (a : T) (w1 w2 : World) (res : string),
         operation w = (Fulfilled a, w1) ->
         portOpen w1 = true ->
         awaitAnswer "ER" w1 = (Fulfilled res, w2) ->
         timeline w2 = (timeline w1 ++ [Wrote ("ER" ++ JS.CRLF)])%list
         /\ withCheck operation w
            = (match errorResultOf res with
               | Ok => Fulfilled a
               | NotOk code => Rejected (CommandError code)
               end, w2))
  /\ (forall res : string,
         (PrimFloat.eqb (JS.parseInt res) 0 = true -> errorResultOf res = Ok)
         /\ (PrimFloat.eqb (JS.parseInt res) 1 = true ->
             errorResultOf res = NotOk Types.HARDWARE_ERROR)
         /\ (PrimFloat.eqb (JS.parseInt res) 2 = true ->
             errorResultOf res = NotOk Types.COMMAND_ERROR)
         /\ (PrimFloat.eqb (JS.parseInt res) 0 = false ->
             PrimFloat.eqb (JS.parseInt res) 1 = false ->
             PrimFloat.eqb (JS.parseInt res) 2 = false ->
             errorResultOf res = NotOk Types.UNKNOWN_ERROR)).
Proof.
  split; [|split].
  - intros e w1 Hop. unfold withCheck, bind. now rewrite Hop.
  - intros a w1 w2 res Hop Hopen Hans. split.
    + pose proof (awaitAnswer_timeline "ER" w1 Hopen) as Ht.
      now rewrite Hans in Ht.
    + unfold withCheck, bind at 1. rewrite Hop.
      unfold checkRobotErrorCode, bind.
      rewrite (checkPortOpen_open w1 Hopen), Hans. unfold ret.
      now destruct (errorResultOf res).
  - apply errorResultOf_mapping.
Qed.

Lemma withCheck_checks_after_success_witness :
  let w := connected ["2" ++ JS.CRLF] in
  let w1 := snd (moveTo poseA 0 w) in
  let w2 := snd (awaitAnswer "ER" w1) in
  withCheck (moveDelta 1 2 3 None None None) w = (Rejected NoCachedPose, w)
  /\ (timeline w2 = (timeline w1 ++ [Wrote ("ER" ++ JS.CRLF)])%list
      /\ withCheck (moveTo poseA 0) w
         = (match errorResultOf "2" with
            | Ok => Fulfilled tt
            | NotOk code => Rejected (CommandError code)
            end, w2))
  /\ errorResultOf "2" = NotOk Types.COMMAND_ERROR.
Proof.
  cbv zeta. split; [|split].
  - apply (proj1 (withCheck_checks_after_success
                    (moveDelta 1 2 3 None None None)
                    (connected ["2" ++ JS.CRLF]))).
    vm_compute. reflexivity.
  - apply (proj1 (proj2 (withCheck_checks_after_success
                           (moveTo poseA 0) (connected ["2" ++ JS.CRLF]))));
      vm_compute; reflexivity.
  - apply (proj2 (proj2 (withCheck_checks_after_success
                           (moveTo poseA 0) (connected ["2" ++ JS.CRLF]))) "2").
    vm_compute. reflexivity.
Defined.

(* ===================================================================== *)
(** * Further properties of the class *)
(* ===================================================================== *)

(** ** A closed port *)

Lemma isConnected_portOpen (w : World) : isConnected w = portOpen w.
Proof. reflexivity. Qed.

Lemma sendCommandNoAnswer_closed (command : string) (w : World) :
  portOpen w = false ->
  sendCommandNoAnswer command w = (Rejected PortNotOpen, w).
Proof.
  intros H. unfold sendCommandNoAnswer, bind.
  now rewrite (checkPortOpen_closed w H).
Qed.

(** X1. While the port is closed (or absent), every command that expects
    no answer, and the error-code query, is rejected with the
    port-not-open error before anything else happens: nothing is written,
    no argument is validated and no field of the robot changes. *)
Theorem closed_port_rejects_commands (w : World) :
  portOpen w = false ->
  (forall command, sendCommandNoAnswer command w = (Rejected PortNotOpen, w))
  /\ (forall pos n, moveTo pos n w = (Rejected PortNotOpen, w))
  /\ (forall points, movePath points w = (Rejected PortNotOpen, w))
  /\ (forall open, setGripper open w = (Rejected PortNotOpen, w))
  /\ (forall s, setSpeed s w = (Rejected PortNotOpen, w))
  /\ (forall L, setToolLength L w = (Rejected PortNotOpen, w))
  /\ (forall a b c, setGripPressure a b c w = (Rejected PortNotOpen, w))
  /\ (forall x y z p r, rotateAxis x y z p r w = (Rejected PortNotOpen, w))
  /\ moveToHomePosition w = (Rejected PortNotOpen, w)
  /\ nest w = (Rejected PortNotOpen, w)
  /\ reset w = (Rejected PortNotOpen, w)
  /\ checkRobotErrorCode w = (Rejected PortNotOpen, w).
Proof.
  intros H. pose proof (checkPortOpen_closed w H) as Hc.
  repeat split; intros;
    try (now apply sendCommandNoAnswer_closed);
    unfold moveTo, movePath, setGripper, setSpeed, setToolLength,
      setGripPressure, rotateAxis, moveToHomePosition, nest, reset,
      checkRobotErrorCode, bind;
    now rewrite Hc.
Qed.

Lemma closed_port_rejects_commands_witness :
  setSpeed 42 Robot.newRobot = (Rejected PortNotOpen, Robot.newRobot)
  /\ movePath [poseA; poseB] Robot.newRobot
     = (Rejected PortNotOpen, Robot.newRobot).
Proof.
  destruct (closed_port_rejects_commands Robot.newRobot eq_refl)
    as (_ & _ & Hpath & _ & Hspeed & _).
  split; [apply Hspeed | apply Hpath].
Defined.

Lemma awaitAnswer_closed (command : string) (w : World) :
  portOpen w = false ->
  awaitAnswer command w
  = (Rejected PortNotOpen,
     set_promises (promises w ++ [Failed PortNotOpen])%list w).
Proof.
  intros H.
  assert (Hs : sendCommandWithAnswer command w
               = (length (promises w),
                  set_promises (promises w ++ [Failed PortNotOpen])%list w)).
  { unfold sendCommandWithAnswer.
    rewrite checkPortOpen_closed by exact H. cbn [promises set_promises].
    unfold reject. rewrite lookup_app_r by lia. rewrite Nat.sub_diag. cbn.
    rewrite insert_app_r_alt by lia. rewrite Nat.sub_diag. reflexivity. }
  unfold awaitAnswer. rewrite Hs. unfold await.
  assert (Hl : promises
                 (set_promises (promises w ++ [Failed PortNotOpen])%list w)
               !! length (promises w) = Some (Failed PortNotOpen)).
  { cbn. rewrite lookup_app_r by lia. now rewrite Nat.sub_diag. }
  destruct (pendingInput _); cbn [awaitWith]; now rewrite Hl.
Qed.

(** X2. On a closed port the pose query that goes to the hardware is
    rejected with the port-not-open error: nothing is written and no
    listener is registered, only the rejected promise of the call is new.
    A read of a cached pose with [forceUpdateByHardware = false] needs no
    port: it still fulfils with a copy. *)
Theorem closed_port_pose_query (w : World) :
  portOpen w = false ->
  getActualPosition true w
  = (Rejected PortNotOpen,
     set_promises (promises w ++ [Failed PortNotOpen])%list w)
  /\ (position w = None ->
      getActualPosition false w = getActualPosition true w)
  /\ (forall ref pose,
         position w = Some ref -> heap w !! ref = Some pose ->
         getActualPosition false w
         = (Fulfilled (length (heap w)), set_heap (heap w ++ [pose])%list w)).
Proof.
  intros H. split; [|split].
  - unfold getActualPosition. cbn [negb]. unfold bind at 1.
    now rewrite (awaitAnswer_closed "WH" w H).
  - intros Hp. unfold getActualPosition. rewrite Hp. cbn [negb].
    reflexivity.
  - intros ref pose Hp Hh.
    now destruct (getActualPosition_cached_is_copy w ref pose Hp Hh).
Qed.

Lemma closed_port_pose_query_witness :
  getActualPosition true Robot.newRobot
  = (Rejected PortNotOpen, set_promises [Failed PortNotOpen] Robot.newRobot).
Proof.
  apply (proj1 (closed_port_pose_query Robot.newRobot eq_refl)).
Defined.

(** ** Absolute moves and the cache *)

Lemma moveTo_any (pos : Types.Position) (n : JS.number) (w : World) :
  portOpen w = true ->
  moveTo pos n w
  = (Fulfilled tt,
     set_position (Some (length (heap w)))
       (set_heap (heap w ++ [pos])%list
          (emit (moveEvents pos n (toolIsOpen w)) w))).
Proof.
  intros Hopen. destruct pos as [x y z p r]. unfold moveTo, moveEvents, bind.
  rewrite (checkPortOpen_open w Hopen). cbn [Types.x Types.y Types.z Types.p Types.r].
  destruct (PrimFloat.eqb n 0).
  - rewrite sendCommandNoAnswer_open by exact Hopen.
    rewrite append_assoc. reflexivity.
  - rewrite sendCommandNoAnswer_open by exact Hopen.
    rewrite sendCommandNoAnswer_open by exact Hopen.
    rewrite sendCommandNoAnswer_open by exact Hopen.
    rewrite !emit_emit. cbn [app toolIsOpen emit set_timeline].
    rewrite !append_assoc. reflexivity.
Qed.

Lemma cachedPose_after_alloc (pos : Types.Position) (w : World) :
  cachedPose (set_position (Some (length (heap w)))
                (set_heap (heap w ++ [pos])%list w)) = Some pos.
Proof.
  unfold cachedPose. cbn. rewrite lookup_app_r by lia.
  now rewrite Nat.sub_diag.
Qed.

(** X3. Cache round trip. On an open port [moveTo(P, n)] fulfils for every
    pose and every interpolation count, and the cached pose is then [P];
    a following [getActualPosition(false)] returns a new object holding
    [P] and causes no transport traffic (no write, no new promise, no
    device input consumed). *)
Theorem moveTo_then_cached_read (pos : Types.Position) (n : JS.number)
    (w : World) :
  portOpen w = true ->
  let w1 := snd (moveTo pos n w) in
  let r := getActualPosition false w1 in
  fst (moveTo pos n w) = Fulfilled tt
  /\ cachedPose w1 = Some pos
  /\ (exists ref, fst r = Fulfilled ref
                  /\ heap (snd r) !! ref = Some pos
                  /\ position w1 <> Some ref)
  /\ cachedPose (snd r) = Some pos
  /\ timeline (snd r) = timeline w1
  /\ promises (snd r) = promises w1
  /\ pendingInput (snd r) = pendingInput w1.
Proof.
  intros Hopen w1 r. subst w1 r. rewrite (moveTo_any pos n w Hopen).
  cbn [fst snd].
  match goal with
  | |- context [getActualPosition false ?w1] =>
      assert (Hp : position w1 = Some (length (heap w))) by reflexivity;
      assert (Hh : heap w1 !! length (heap w) = Some pos)
        by (cbn; rewrite lookup_app_r by lia; now rewrite Nat.sub_diag);
      destruct (getActualPosition_cached_is_copy w1 _ pos Hp Hh) as [Hr _];
      rewrite Hr
  end.
  cbn [fst snd]. split; [reflexivity|]. split.
  { unfold cachedPose. cbn. rewrite lookup_app_r by lia.
    now rewrite Nat.sub_diag. }
  split.
  { eexists. split; [reflexivity|]. split.
    - cbn. rewrite lookup_app_r; rewrite !length_app; cbn; [|lia].
      now replace (length (heap w) + 1 - (length (heap w) + 1))%nat
        with 0%nat by lia.
    - cbn. rewrite length_app. cbn. intros [= E]. lia. }
  split.
  { unfold cachedPose. cbn. rewrite <- app_assoc.
    rewrite lookup_app_r by lia. now rewrite Nat.sub_diag. }
  repeat split.
Qed.

Lemma moveTo_then_cached_read_witness :
  let w1 := snd (moveTo poseA 0 (connected [])) in
  fst (moveTo poseA 0 (connected [])) = Fulfilled tt
  /\ cachedPose w1 = Some poseA
  /\ timeline (snd (getActualPosition false w1)) = timeline w1.
Proof.
  destruct (moveTo_then_cached_read poseA 0 (connected []) eq_refl)
    as (H1 & H2 & _ & _ & H5 & _).
  cbv zeta. split; [exact H1|]. split; [exact H2 | exact H5].
Defined.

(** X4. An interpolated absolute move. On an open port, when the
    interpolation count [n] is not 0, [moveTo(P, n)] writes three commands
    in this order, each followed by the 100 ms delay: ["PC 1"], the store
    ["PD 1, ..."] of the destination, and ["MS 1, n, flag"], where the
    flag is ["C"] when the gripper flag [toolIsOpen] is set and ["O"]
    otherwise; then [P] is the cached pose. *)
Theorem moveTo_interpolated (pos : Types.Position) (n : JS.number)
    (w : World) :
  portOpen w = true ->
  PrimFloat.eqb n 0 = false ->
  fst (moveTo pos n w) = Fulfilled tt
  /\ timeline (snd (moveTo pos n w))
     = (timeline w
        ++ [Wrote ("PC 1" ++ JS.CRLF); Slept 100;
            Wrote ("PD 1, "
                   ++ coordinates (Types.x pos) (Types.y pos) (Types.z pos)
                        (Types.p pos) (Types.r pos) ++ JS.CRLF);
            Slept 100;
            Wrote ("MS 1, " ++ JS.Number_toString n ++ ", "
                   ++ (if toolIsOpen w then "C" else "O") ++ JS.CRLF);
            Slept 100])%list
  /\ cachedPose (snd (moveTo pos n w)) = Some pos.
Proof.
  intros Hopen Hn. rewrite (moveTo_any pos n w Hopen).
  unfold moveEvents. rewrite Hn. cbn [fst snd]. split; [reflexivity|].
  split; [reflexivity|]. unfold cachedPose. cbn.
  rewrite lookup_app_r by lia. now rewrite Nat.sub_diag.
Qed.

Lemma moveTo_interpolated_witness :
  timeline (snd (moveTo poseB 10 (set_toolIsOpen true (connected []))))
  = [Wrote ("PC 1" ++ JS.CRLF); Slept 100;
     Wrote ("PD 1, 150.0, 75.0, 180.0, 10.0, 5.0" ++ JS.CRLF); Slept 100;
     Wrote ("MS 1, 10, C" ++ JS.CRLF); Slept 100].
Proof.
  destruct (moveTo_interpolated poseB 10 (set_toolIsOpen true (connected []))
              eq_refl eq_refl) as (_ & H & _).
  rewrite H. vm_compute. reflexivity.
Defined.

(** ** Moves relative to the cached pose *)

Lemma cachedPose_deref (w : World) (pose : Types.Position) :
  cachedPose w = Some pose ->
  exists ref, position w = Some ref /\ deref w ref = pose.
Proof.
  unfold cachedPose, deref. destruct (position w) as [ref|]; [|discriminate].
  intros H. exists ref. now rewrite H.
Qed.

(** X5. [moveToXYZ] keeps pitch and roll. With a cached pose and an open
    port, [moveToXYZ(x, y, z, n)] moves to the given linear coordinates
    with the cached pitch and roll, and caches exactly that pose.  Without
    a cached pose it is rejected with the no-pose error before the port
    is even looked at, and nothing changes. *)
Theorem moveToXYZ_keeps_pitch_roll (x y z n : JS.number) (w : World) :
  (position w = None ->
   moveToXYZ x y z n w = (Rejected NoCachedPose, w))
  /\ (forall pose,
         portOpen w = true ->
         cachedPose w = Some pose ->
         let target :=
           Types.mkPosition x y z (Types.p pose) (Types.r pose) in
         fst (moveToXYZ x y z n w) = Fulfilled tt
         /\ timeline (snd (moveToXYZ x y z n w))
            = (timeline w ++ moveEvents target n (toolIsOpen w))%list
         /\ cachedPose (snd (moveToXYZ x y z n w)) = Some target).
Proof.
  split.
  - intros H. unfold moveToXYZ. now rewrite H.
  - intros pose Hopen Hc target.
    destruct (cachedPose_deref w pose Hc) as (ref & Hp & Hd).
    unfold moveToXYZ. rewrite Hp, Hd. fold target.
    rewrite (moveTo_any target n w Hopen). cbn [fst snd].
    split; [reflexivity|]. split; [reflexivity|].
    apply (cachedPose_after_alloc target (emit _ w)).
Qed.

Lemma moveToXYZ_keeps_pitch_roll_witness :
  moveToXYZ 1 2 3 0 (connected []) = (Rejected NoCachedPose, connected [])
  /\ cachedPose (snd (moveToXYZ 150 75 180 0 (connectedAt poseB)))
     = Some (Types.mkPosition 150 75 180 10 5).
Proof.
  destruct (moveToXYZ_keeps_pitch_roll 1 2 3 0 (connected [])) as [H1 _].
  destruct (moveToXYZ_keeps_pitch_roll 150 75 180 0 (connectedAt poseB))
    as [_ H2].
  split; [apply H1; reflexivity|].
  destruct (H2 poseB eq_refl eq_refl) as (_ & _ & H). exact H.
Defined.

Lemma moveDelta_five_args (x y z p r : JS.number) (n : option JS.number)
    (w : World) (pose : Types.Position) :
  portOpen w = true ->
  cachedPose w = Some pose ->
  moveDelta x y z (Some p) (Some r) n w
  = (Fulfilled tt,
     set_position (Some (length (heap w)))
       (set_heap (heap w ++ [addDelta pose x y z p r])%list
          (emit (moveEvents (addDelta pose x y z p r) (default 0%float n)
                   (toolIsOpen w)) w))).
Proof.
  intros Hopen Hc. destruct (cachedPose_deref w pose Hc) as (ref & Hp & Hd).
  unfold moveDelta. rewrite Hp, Hd. cbn [default].
  now rewrite moveTo_any by exact Hopen.
Qed.

(** X6. The five-delta form of [moveDelta]. With a cached pose and an open
    port, [moveDelta(x, y, z, p, r, n)] moves to the cached pose plus the
    five deltas, coordinate by coordinate, with [n] interpolation points
    (0 when left out), and caches that sum. *)
Theorem moveDelta_five_args_sums (x y z p r : JS.number)
    (n : option JS.number) (w : World) (pose : Types.Position) :
  portOpen w = true ->
  cachedPose w = Some pose ->
  fst (moveDelta x y z (Some p) (Some r) n w) = Fulfilled tt
  /\ timeline (snd (moveDelta x y z (Some p) (Some r) n w))
     = (timeline w
        ++ moveEvents (addDelta pose x y z p r) (default 0%float n)
             (toolIsOpen w))%list
  /\ cachedPose (snd (moveDelta x y z (Some p) (Some r) n w))
     = Some (addDelta pose x y z p r).
Proof.
  intros Hopen Hc. rewrite (moveDelta_five_args x y z p r n w pose Hopen Hc).
  cbn [fst snd]. split; [reflexivity|]. split; [reflexivity|].
  apply (cachedPose_after_alloc _ (emit _ w)).
Qed.

Lemma moveDelta_five_args_sums_witness :
  timeline (snd (moveDelta 10 0 (-5) (Some 15%float) (Some 0%float) None
                   (connectedAt poseA)))
  = [Wrote ("MP 110.0, 50.0, 195.0, 15.0, 0.0" ++ JS.CRLF); Slept 100]
  /\ cachedPose (snd (moveDelta 10 0 (-5) (Some 15%float) (Some 0%float) None
                        (connectedAt poseA)))
     = Some (Types.mkPosition 110 50 195 15 0).
Proof.
  destruct (moveDelta_five_args_sums 10 0 (-5) 15 0 None (connectedAt poseA)
              poseA eq_refl eq_refl) as (_ & H1 & H2).
  split; [etransitivity; [exact H1 | vm_compute; reflexivity] | exact H2].
Defined.

Lemma moveDelta_five_args_step (x y z p r : JS.number) (w : World)
    (pose : Types.Position) :
  portOpen w = true ->
  cachedPose w = Some pose ->
  exists w1,
    moveDelta x y z (Some p) (Some r) None w = (Fulfilled tt, w1)
    /\ portOpen w1 = true
    /\ toolIsOpen w1 = toolIsOpen w
    /\ cachedPose w1 = Some (addDelta pose x y z p r)
    /\ timeline w1
       = (timeline w
          ++ moveEvents (addDelta pose x y z p r) 0 (toolIsOpen w))%list.
Proof.
  intros Hopen Hc. eexists. split.
  - apply (moveDelta_five_args x y z p r None w pose Hopen Hc).
  - split; [exact Hopen|]. split; [reflexivity|]. split; [|reflexivity].
    apply (cachedPose_after_alloc _ (emit _ w)).
Qed.

(** X7. Relative moves accumulate. Two five-delta calls of [moveDelta] in
    a row leave in the cache the start pose plus the first deltas plus the
    second deltas (added in that order), and the second move is computed
    from the pose the first one cached, not from the hardware. *)
Theorem moveDelta_twice (x1 y1 z1 p1 r1 x2 y2 z2 p2 r2 : JS.number)
    (w : World) (pose : Types.Position) :
  portOpen w = true ->
  cachedPose w = Some pose ->
  let w1 := snd (moveDelta x1 y1 z1 (Some p1) (Some r1) None w) in
  let w2 := snd (moveDelta x2 y2 z2 (Some p2) (Some r2) None w1) in
  fst (moveDelta x2 y2 z2 (Some p2) (Some r2) None w1) = Fulfilled tt
  /\ cachedPose w2
     = Some (addDelta (addDelta pose x1 y1 z1 p1 r1) x2 y2 z2 p2 r2)
  /\ timeline w2
     = (timeline w
        ++ moveEvents (addDelta pose x1 y1 z1 p1 r1) 0 (toolIsOpen w)
        ++ moveEvents (addDelta (addDelta pose x1 y1 z1 p1 r1) x2 y2 z2 p2 r2)
             0 (toolIsOpen w))%list.
Proof.
  intros Hopen Hc w1 w2. subst w2 w1.
  destruct (moveDelta_five_args_step x1 y1 z1 p1 r1 w pose Hopen Hc)
    as (w1 & -> & Ho1 & Ht1 & Hc1 & Hl1).
  cbn [snd].
  destruct (moveDelta_five_args_step x2 y2 z2 p2 r2 w1 _ Ho1 Hc1)
    as (w2 & -> & _ & _ & Hc2 & Hl2).
  cbn [fst snd]. split; [reflexivity|]. split; [exact Hc2|].
  now rewrite Hl2, Hl1, Ht1, <- app_assoc.
Qed.

Lemma moveDelta_twice_witness :
  cachedPose
    (snd (moveDelta 0 0 (-5) (Some 0%float) (Some 90%float) None
            (snd (moveDelta 10 0 0 (Some 15%float) (Some 0%float) None
                    (connectedAt poseA)))))
  = Some (Types.mkPosition 110 50 195 15 90).
Proof.
  destruct (moveDelta_twice 10 0 0 15 0 0 0 (-5) 0 90 (connectedAt poseA)
              poseA eq_refl eq_refl) as (_ & H & _).
  exact H.
Defined.

(** ** The gripper *)

Lemma setGripper_open (open : bool) (w : World) :
  portOpen w = true ->
  setGripper open w
  = (Fulfilled tt,
     set_toolIsOpen open
       (emit [Wrote ((if open then "GO" else "GC") ++ JS.CRLF); Slept 100] w)).
Proof.
  intros Hopen. unfold setGripper, bind. rewrite (checkPortOpen_open w Hopen).
  destruct open; now rewrite sendCommandNoAnswer_open by exact Hopen.
Qed.

(** X8. The gripper flag and the interpolated move. On an open port
    [setGripper(open)] writes ["GO"] to open and ["GC"] to close and
    records the flag, so that [getGripperClosed()] answers the opposite of
    [open]; an interpolated [moveTo] that follows ends its burst with the
    flag ["C"] after [setGripper(true)] and ["O"] after
    [setGripper(false)]. *)
Theorem setGripper_then_interpolated_move (open : bool)
    (pos : Types.Position) (n : JS.number) (w : World) :
  portOpen w = true ->
  PrimFloat.eqb n 0 = false ->
  let w1 := snd (setGripper open w) in
  fst (setGripper open w) = Fulfilled tt
  /\ getGripperClosed w1 = negb open
  /\ fst (moveTo pos n w1) = Fulfilled tt
  /\ timeline (snd (moveTo pos n w1))
     = (timeline w
        ++ [Wrote ((if open then "GO" else "GC") ++ JS.CRLF); Slept 100;
            Wrote ("PC 1" ++ JS.CRLF); Slept 100;
            Wrote ("PD 1, "
                   ++ coordinates (Types.x pos) (Types.y pos) (Types.z pos)
                        (Types.p pos) (Types.r pos) ++ JS.CRLF);
            Slept 100;
            Wrote ("MS 1, " ++ JS.Number_toString n ++ ", "
                   ++ (if open then "C" else "O") ++ JS.CRLF);
            Slept 100])%list.
Proof.
  intros Hopen Hn w1. subst w1. rewrite (setGripper_open open w Hopen).
  cbn [fst snd]. split; [reflexivity|]. split; [reflexivity|].
  rewrite moveTo_any by exact Hopen. cbn [fst snd].
  split; [reflexivity|]. unfold moveEvents. rewrite Hn. cbn.
  now rewrite <- app_assoc.
Qed.

Lemma setGripper_then_interpolated_move_witness :
  timeline (snd (moveTo poseA 5 (snd (setGripper false (connected [])))))
  = [Wrote ("GC" ++ JS.CRLF); Slept 100;
     Wrote ("PC 1" ++ JS.CRLF); Slept 100;
     Wrote ("PD 1, 100.0, 50.0, 200.0, 0.0, 0.0" ++ JS.CRLF); Slept 100;
     Wrote ("MS 1, 5, O" ++ JS.CRLF); Slept 100].
Proof.
  destruct (setGripper_then_interpolated_move false poseA 5 (connected [])
              eq_refl eq_refl) as (_ & _ & _ & H).
  etransitivity; [exact H | vm_compute; reflexivity].
Defined.

(** X9. [setGripPressure] validates before it writes. On an open port the
    three arguments are checked in order against [0, 15], [0, 15] and
    [0, 99]; the first one below its lower or above its upper bound
    rejects the call with its own message and nothing is written.
    Otherwise exactly one ["GP a, b, c"] command is written, with the
    numbers as given (they are not rounded), and no field changes. *)
Theorem setGripPressure_validates (a b c : JS.number) (w : World) :
  portOpen w = true ->
  setGripPressure a b c w
  = if PrimFloat.ltb a 0 || PrimFloat.ltb 15 a then
      (Rejected (MkError "Starting grip force must be between 0 and 15"), w)
    else if PrimFloat.ltb b 0 || PrimFloat.ltb 15 b then
      (Rejected (MkError "Retained gripping force must be between 0 and 15"),
       w)
    else if PrimFloat.ltb c 0 || PrimFloat.ltb 99 c then
      (Rejected
         (MkError
            "Start gripping force retention time must be between 0 and 99"),
       w)
    else
      (Fulfilled tt,
       emit [Wrote ("GP " ++ JS.Number_toString a ++ ", "
                    ++ JS.Number_toString b ++ ", " ++ JS.Number_toString c
                    ++ JS.CRLF); Slept 100] w).
Proof.
  intros Hopen. unfold setGripPressure, bind.
  rewrite (checkPortOpen_open w Hopen).
  destruct (PrimFloat.ltb a 0 || PrimFloat.ltb 15 a); [reflexivity|].
  destruct (PrimFloat.ltb b 0 || PrimFloat.ltb 15 b); [reflexivity|].
  destruct (PrimFloat.ltb c 0 || PrimFloat.ltb 99 c); [reflexivity|].
  rewrite sendCommandNoAnswer_open by exact Hopen.
  now rewrite !append_assoc.
Qed.

Lemma setGripPressure_validates_witness :
  setGripPressure 10 5 20 (connected [])
  = (Fulfilled tt,
     emit [Wrote ("GP 10, 5, 20" ++ JS.CRLF); Slept 100] (connected []))
  /\ setGripPressure 1.5 0 99 (connected [])
     = (Fulfilled tt,
        emit [Wrote ("GP 1.5, 0, 99" ++ JS.CRLF); Slept 100] (connected []))
  /\ setGripPressure 16 (-1) 100 (connected [])
     = (Rejected (MkError "Starting grip force must be between 0 and 15"),
        connected [])
  /\ setGripPressure 15 15 100 (connected [])
     = (Rejected
          (MkError
             "Start gripping force retention time must be between 0 and 99"),
        connected []).
Proof.
  split; [|split; [|split]].
  - rewrite (setGripPressure_validates 10 5 20 (connected []) eq_refl).
    vm_compute. reflexivity.
  - rewrite (setGripPressure_validates 1.5 0 99 (connected []) eq_refl).
    vm_compute. reflexivity.
  - rewrite (setGripPressure_validates 16 (-1) 100 (connected []) eq_refl).
    vm_compute. reflexivity.
  - rewrite (setGripPressure_validates 15 15 100 (connected []) eq_refl).
    vm_compute. reflexivity.
Defined.

(** ** Home, nest, reset and the stale cache *)

(** X10. [moveToHomePosition], [nest] and [reset] on an open port write
    ["OG"], ["NT"] and ["RS"], each followed by the 100 ms delay, and
    change nothing else: in particular the cached pose stays what it was,
    although the arm has been told to move. *)
Theorem home_nest_reset (w : World) :
  portOpen w = true ->
  moveToHomePosition w
  = (Fulfilled tt, emit [Wrote ("OG" ++ JS.CRLF); Slept 100] w)
  /\ nest w = (Fulfilled tt, emit [Wrote ("NT" ++ JS.CRLF); Slept 100] w)
  /\ reset w = (Fulfilled tt, emit [Wrote ("RS" ++ JS.CRLF); Slept 100] w)
  /\ cachedPose (snd (moveToHomePosition w)) = cachedPose w
  /\ cachedPose (snd (nest w)) = cachedPose w
  /\ cachedPose (snd (reset w)) = cachedPose w.
Proof.
  intros Hopen.
  assert (H : forall c,
             (checkPortOpen ;; sendCommandNoAnswer c) w
             = (Fulfilled tt, emit [Wrote (c ++ JS.CRLF); Slept 100] w)).
  { intros c. unfold bind. rewrite (checkPortOpen_open w Hopen).
    now rewrite sendCommandNoAnswer_open by exact Hopen. }
  unfold moveToHomePosition, nest, reset. rewrite !H. repeat split.
Qed.

Lemma home_nest_reset_witness :
  moveToHomePosition (connectedAt poseA)
  = (Fulfilled tt,
     emit [Wrote ("OG" ++ JS.CRLF); Slept 100] (connectedAt poseA))
  /\ cachedPose (snd (moveToHomePosition (connectedAt poseA))) = Some poseA.
Proof.
  destruct (home_nest_reset (connectedAt poseA) eq_refl)
    as (H1 & _ & _ & H4 & _).
  split; [exact H1 | rewrite H4; reflexivity].
Defined.

(** X11. What never touches the cached pose. Whatever the state of the
    port and whatever the arguments, [movePath], [setSpeed],
    [setToolLength], [setGripper] and [setGripPressure] leave the cached
    pose as it was: after [movePath] the cache still holds the pose from
    before the path. *)
Theorem cached_pose_untouched (w : World) :
  (forall points, cachedPose (snd (movePath points w)) = cachedPose w)
  /\ (forall s, cachedPose (snd (setSpeed s w)) = cachedPose w)
  /\ (forall L, cachedPose (snd (setToolLength L w)) = cachedPose w)
  /\ (forall open, cachedPose (snd (setGripper open w)) = cachedPose w)
  /\ (forall a b c, cachedPose (snd (setGripPressure a b c w)) = cachedPose w).
Proof.
  destruct (portOpen w) eqn:Hopen.
  - repeat split; intros.
    + now rewrite movePath_open.
    + unfold setSpeed, bind. rewrite (checkPortOpen_open w Hopen).
      destruct (_ || _); [reflexivity|]. unfold modify.
      now rewrite sendCommandNoAnswer_open by exact Hopen.
    + unfold setToolLength, bind. rewrite (checkPortOpen_open w Hopen).
      unfold modify. now rewrite sendCommandNoAnswer_open by exact Hopen.
    + now rewrite setGripper_open.
    + unfold setGripPressure, bind. rewrite (checkPortOpen_open w Hopen).
      repeat (destruct (_ || _); [reflexivity|]).
      now rewrite sendCommandNoAnswer_open by exact Hopen.
  - pose proof (checkPortOpen_closed w Hopen) as Hc.
    repeat split; intros;
      unfold movePath, setSpeed, setToolLength, setGripper, setGripPressure,
        bind; now rewrite Hc.
Qed.

(** ** rotateAxis *)

Lemma getActualPosition_forced_run (w w1 : World) (response : string) :
  awaitAnswer "WH" w = (Fulfilled response, w1) ->
  getActualPosition true w
  = if (length (JS.split response ",") <? 5)%nat
    then (Rejected MalformedResponse, w1)
    else (Fulfilled (S (length (heap w1))),
          set_heap (heap w1 ++ [poseOfAnswer response;
                                poseOfAnswer response])%list
            (set_position (Some (length (heap w1))) w1)).
Proof.
  intros Hans. unfold getActualPosition. cbn [negb].
  unfold bind at 1. rewrite Hans. rewrite length_map.
  destruct (Nat.ltb_spec (length (JS.split response ",")) 5) as [Hlt|Hge];
    [reflexivity|].
  assert (Hparts : forall i, (i < length (JS.split response ","))%nat ->
            nth i (map parsePart (JS.split response ",")) PrimFloat.nan
            = parsePart (nth i (JS.split response ",") "")).
  { intros i Hi. rewrite (nth_indep _ _ (parsePart "")); [apply map_nth|].
    now rewrite length_map. }
  rewrite !Hparts by lia. fold (poseOfAnswer response).
  unfold bind, alloc, modify. cbn. rewrite length_app. cbn.
  rewrite Nat.add_1_r. rewrite <- app_assoc. reflexivity.
Qed.

(** X12. [rotateAxis] re-reads the pose. On an open port
    [rotateAxis(x, y, z, p, r)] writes the ["MJ"] command with the five
    formatted deltas, waits 100 ms and then queries the hardware with
    ["WH"]: with an answer of five or more fields the cached pose becomes
    the answered pose (the deltas are not added to the cache); with fewer
    fields the call is rejected with the malformed-response error after
    ["MJ"] has been sent, and the cached pose stays as it was. *)
Theorem rotateAxis_refreshes_cache (x y z p r : JS.number)
    (w w1 : World) (response : string) :
  portOpen w = true ->
  awaitAnswer "WH"
    (emit [Wrote ("MJ " ++ coordinates x y z p r ++ JS.CRLF); Slept 100] w)
  = (Fulfilled response, w1) ->
  timeline w1
  = (timeline w
     ++ [Wrote ("MJ " ++ coordinates x y z p r ++ JS.CRLF); Slept 100;
         Wrote ("WH" ++ JS.CRLF)])%list
  /\ ((length (JS.split response ",") < 5)%nat ->
      rotateAxis x y z p r w = (Rejected MalformedResponse, w1)
      /\ cachedPose w1 = cachedPose w)
  /\ ((5 <= length (JS.split response ","))%nat ->
      fst (rotateAxis x y z p r w) = Fulfilled tt
      /\ cachedPose (snd (rotateAxis x y z p r w))
         = Some (poseOfAnswer response)
      /\ timeline (snd (rotateAxis x y z p r w)) = timeline w1).
Proof.
  intros Hopen Hans.
  assert (Hrun : rotateAxis x y z p r w
                 = (_ <- getActualPosition true ;; ret tt)
                     (emit [Wrote ("MJ " ++ coordinates x y z p r ++ JS.CRLF);
                            Slept 100] w)).
  { unfold rotateAxis. unfold bind at 1. rewrite (checkPortOpen_open w Hopen).
    unfold bind at 1. rewrite sendCommandNoAnswer_open by exact Hopen.
    now rewrite append_assoc. }
  split; [|split].
  - pose proof (awaitAnswer_timeline "WH"
                  (emit [Wrote ("MJ " ++ coordinates x y z p r ++ JS.CRLF);
                         Slept 100] w) Hopen) as Ht.
    rewrite Hans in Ht. cbn [snd] in Ht. rewrite Ht. cbn.
    now rewrite <- app_assoc.
  - intros Hlt. rewrite Hrun. unfold bind.
    rewrite (getActualPosition_forced_run _ w1 response Hans).
    destruct (Nat.ltb_spec (length (JS.split response ",")) 5); [|lia].
    split; [reflexivity|].
    pose proof (awaitAnswer_cache "WH"
                  (emit [Wrote ("MJ " ++ coordinates x y z p r ++ JS.CRLF);
                         Slept 100] w)) as Hc.
    now rewrite Hans in Hc.
  - intros Hge. rewrite Hrun. unfold bind.
    rewrite (getActualPosition_forced_run _ w1 response Hans).
    destruct (Nat.ltb_spec (length (JS.split response ",")) 5); [lia|].
    unfold ret. cbn [fst snd]. split; [reflexivity|]. split; [|reflexivity].
    unfold cachedPose. cbn. rewrite lookup_app_r by lia.
    now rewrite Nat.sub_diag.
Qed.

Lemma rotateAxis_refreshes_cache_witness :
  let w := connectedAt poseA in
  fst (rotateAxis 0 0 0 0 90 (set_incoming [exampleAnswer] w)) = Fulfilled tt
  /\ cachedPose (snd (rotateAxis 0 0 0 0 90 (set_incoming [exampleAnswer] w)))
     = Some (poseOfAnswer "+012.300, .500,-001.000,+000.000,+090.000").
Proof.
  cbv zeta.
  pose proof (rotateAxis_refreshes_cache 0 0 0 0 90
                (set_incoming [exampleAnswer] (connectedAt poseA))
                (snd (awaitAnswer "WH"
                        (emit [Wrote ("MJ " ++ coordinates 0 0 0 0 90
                                      ++ JS.CRLF); Slept 100]
                           (set_incoming [exampleAnswer]
                              (connectedAt poseA)))))
                "+012.300, .500,-001.000,+000.000,+090.000") as H.
  destruct H as (_ & _ & H); [vm_compute; reflexivity ..|].
  destruct H as (H1 & H2 & _); [vm_compute; lia|].
  split; [exact H1 | exact H2].
Defined.

(** ** Promises and listeners over time *)

Lemma resolve_settled (q pid : nat) (v : string) (ps : list PromiseState)
    (s : PromiseState) :
  ps !! pid = Some s -> s <> Unsettled -> resolve q v ps !! pid = Some s.
Proof.
  intros Hp Hs. unfold resolve.
  destruct (ps !! q) as [[| |]|] eqn:Hq; try exact Hp.
  destruct (decide (q = pid)) as [->|Hne]; [congruence|].
  now rewrite list_lookup_insert_ne.
Qed.

Lemma emitData_settled (data : string) (ls : list Listener) :
  forall (st : list PromiseState * list (nat * string)) (pid : nat)
         (s : PromiseState),
    fst st !! pid = Some s -> s <> Unsettled ->
    fst (snd (emitData data ls st)) !! pid = Some s.
Proof.
  induction ls as [|l ls IH]; intros st pid s Hp Hs; [exact Hp|].
  cbn [emitData]. destruct (onData data l st) as [l' st'] eqn:E.
  specialize (IH st' pid s).
  destruct (emitData data ls st') as [ls'' st'']. cbn [fst snd] in *.
  apply IH; [|exact Hs]. unfold onData in E.
  destruct (JS.endsWith (stringBuffer l ++ data) JS.CRLF);
    injection E as <- <-; [|exact Hp].
  cbn [fst]. now apply resolve_settled.
Qed.

Lemma emitData_shape (data : string) (ls : list Listener) (n : nat) :
  forall st : list PromiseState * list (nat * string),
    Forall (fun l => waiter l < n)%nat ls ->
    length (fst st) = n ->
    Forall (fun d => fst d < n)%nat (snd st) ->
    map waiter (fst (emitData data ls st)) = map waiter ls
    /\ length (fst (snd (emitData data ls st))) = n
    /\ Forall (fun d => fst d < n)%nat (snd (snd (emitData data ls st))).
Proof.
  induction ls as [|l ls IH]; intros st Hls Hps Hrs; [now cbn|].
  apply Forall_cons in Hls as [Hl Hls]. cbn [emitData].
  destruct (onData data l st) as [l' st'] eqn:E.
  assert (H' : waiter l' = waiter l /\ length (fst st') = n
               /\ Forall (fun d => fst d < n)%nat (snd st')).
  { unfold onData in E.
    destruct (JS.endsWith (stringBuffer l ++ data) JS.CRLF);
      injection E as <- <-; cbn [waiter fst snd]; [|easy].
    split; [reflexivity|]. split; [now rewrite resolve_length|].
    apply Forall_app. split; [exact Hrs|]. now repeat constructor. }
  destruct H' as (Hw & Hps' & Hrs').
  destruct (IH st' Hls Hps' Hrs') as (H1 & H2 & H3).
  destruct (emitData data ls st') as [ls'' st'']. cbn [fst snd map] in *.
  now rewrite Hw, H1.
Qed.

Lemma map_waiter_lt (n : nat) (ls ls' : list Listener) :
  map waiter ls' = map waiter ls ->
  Forall (fun l => waiter l < n)%nat ls ->
  Forall (fun l => waiter l < n)%nat ls'.
Proof.
  revert ls. induction ls' as [|l' ls' IH]; intros [|l ls] Hm H;
    try discriminate; [constructor|].
  cbn in Hm. injection Hm as Hw Hm. apply Forall_cons in H as [Hl H].
  constructor; [now rewrite Hw | now apply (IH ls)].
Qed.

(** A chunk changes neither the port's switches nor the device's queue,
    keeps every listener registered, and keeps the world well formed. *)
Lemma deliver_preserves (data : string) (w : World) :
  portOpen (deliver data w) = portOpen w
  /\ writesSucceed (deliver data w) = writesSucceed w
  /\ pendingInput (deliver data w) = pendingInput w
  /\ (wellFormed w ->
      wellFormed (deliver data w)
      /\ map waiter (listeners (deliver data w)) = map waiter (listeners w)).
Proof.
  unfold deliver, portOpen, writesSucceed, pendingInput, wellFormed, listeners.
  destruct (port w) as [sp|] eqn:Hp; [|rewrite Hp; now repeat split].
  destruct (emitData data (dataListeners sp) (promises w, responses w))
    as [ls [ps rs]] eqn:E.
  cbn. split; [reflexivity|]. split; [reflexivity|]. split; [reflexivity|].
  intros [Hls Hrs].
  destruct (emitData_shape data (dataListeners sp) (length (promises w))
              (promises w, responses w) Hls eq_refl Hrs) as (H1 & H2 & H3).
  rewrite E in H1, H2, H3. cbn [fst snd] in *. rewrite H2.
  split; [split|]; [|exact H3 | exact H1].
  now apply (map_waiter_lt _ (dataListeners sp)).
Qed.

Lemma set_incoming_preserves (chunks : list string) (w : World) :
  portOpen (set_incoming chunks w) = portOpen w
  /\ writesSucceed (set_incoming chunks w) = writesSucceed w
  /\ (wellFormed w -> wellFormed (set_incoming chunks w))
  /\ listeners (set_incoming chunks w) = listeners w
  /\ promises (set_incoming chunks w) = promises w
  /\ (portOpen w = true -> pendingInput (set_incoming chunks w) = chunks).
Proof.
  unfold set_incoming, portOpen, writesSucceed, wellFormed, listeners,
    pendingInput.
  destruct (port w) as [sp|] eqn:Hp; cbn; rewrite ?Hp; repeat split;
    try easy.
Qed.

(** X13. A promise settles once. Once the promise of a request is
    resolved or rejected, its state never changes again: not when more
    data arrives (the listener of the request stays registered and may
    call [resolve] again), and not when further requests are sent. *)
Theorem settled_promise_is_stable (w : World) (pid : nat)
    (s : PromiseState) :
  promises w !! pid = Some s ->
  s <> Unsettled ->
  (forall chunks, promises (deliverAll chunks w) !! pid = Some s)
  /\ (forall command,
         promises (snd (sendCommandWithAnswer command w)) !! pid = Some s).
Proof.
  intros Hp Hs. split.
  - intros chunks. revert w Hp.
    induction chunks as [|c cs IH]; intros w Hp; [exact Hp|].
    cbn [deliverAll fold_left]. apply IH. unfold deliver.
    destruct (port w) as [sp|]; [|exact Hp].
    pose proof (emitData_settled c (dataListeners sp)
                  (promises w, responses w) pid s Hp Hs) as H.
    now destruct (emitData c (dataListeners sp) (promises w, responses w))
      as [ls [ps rs]].
  - intros command. pose proof (lookup_lt_Some _ _ _ Hp) as Hlt.
    assert (Hp' : (promises w ++ [Unsettled])%list !! pid = Some s)
      by now rewrite lookup_app_l.
    unfold sendCommandWithAnswer, checkPortOpen, writeCallback,
      onDataListener, reject.
    destruct w as [[sp|] ? ? ? ? ? hp ps rs tl]; cbn in *.
    + destruct (isOpen sp); cbn.
      * destruct (writeError sp); cbn; [|exact Hp'].
        rewrite lookup_app_r by lia. rewrite Nat.sub_diag. cbn.
        rewrite list_lookup_insert_ne by lia. exact Hp'.
      * rewrite lookup_app_r by lia. rewrite Nat.sub_diag. cbn.
        rewrite list_lookup_insert_ne by lia. exact Hp'.
    + rewrite lookup_app_r by lia. rewrite Nat.sub_diag. cbn.
      rewrite list_lookup_insert_ne by lia. exact Hp'.
Qed.

Lemma settled_promise_is_stable_witness :
  let w1 := snd (awaitAnswer "WH" (connected ["1,2,3,4,5" ++ JS.CRLF])) in
  promises w1 !! 0%nat = Some (Resolved "1,2,3,4,5")
  /\ promises (deliverAll ["0" ++ JS.CRLF; "9" ++ JS.CRLF] w1) !! 0%nat
     = Some (Resolved "1,2,3,4,5").
Proof.
  cbv zeta. split; [vm_compute; reflexivity|].
  apply (proj1 (settled_promise_is_stable
                  (snd (awaitAnswer "WH"
                          (connected ["1,2,3,4,5" ++ JS.CRLF])))
                  0 (Resolved "1,2,3,4,5")
                  ltac:(vm_compute; reflexivity) ltac:(discriminate))).
Defined.

(** ** What an awaited request returns *)

Lemma awaitWith_settled (pid : nat) (feed : list string) (w : World)
    (v : string) :
  promises w !! pid = Some (Resolved v) ->
  awaitWith pid feed w = (Fulfilled v, w).
Proof. intros H. destruct feed; cbn [awaitWith]; now rewrite H. Qed.

Lemma awaitWith_firstAnswer (pid : nat) (feed : list string) :
  forall (w : World) (buf : string),
    portOpen w = true ->
    listening pid buf [] w ->
    fst (awaitWith pid feed w)
    = match firstAnswer buf feed with
      | Some v => Fulfilled v
      | None => Pending
      end
    /\ (firstAnswer buf feed <> None ->
        pendingInput (snd (awaitWith pid feed w)) = afterFirstAnswer buf feed)
    /\ portOpen (snd (awaitWith pid feed w)) = true
    /\ writesSucceed (snd (awaitWith pid feed w)) = writesSucceed w
    /\ (wellFormed w ->
        wellFormed (snd (awaitWith pid feed w))
        /\ map waiter (listeners (snd (awaitWith pid feed w)))
           = map waiter (listeners w)).
Proof.
  induction feed as [|c cs IH]; intros w buf Hopen L.
  - pose proof L as (_ & _ & _ & _ & _ & _ & Hps). cbn [awaitWith settledBy] in *.
    rewrite Hps. cbn. repeat split; try easy; now destruct H.
  - pose proof L as (_ & _ & _ & _ & _ & _ & Hps).
    cbn [awaitWith firstAnswer afterFirstAnswer settledBy] in *. rewrite Hps.
    destruct (set_incoming_preserves cs w) as (Ho1 & Hw1 & Hwf1 & Hl1 & _ & Hin1).
    destruct (deliver_preserves c (set_incoming cs w))
      as (Ho2 & Hw2 & Hin2 & Hwf2).
    apply (listening_set_incoming _ _ _ cs) in L.
    apply (deliver_listening _ _ _ c) in L.
    unfold frameStep in L. cbn [fst snd] in L.
    assert (Hopen' : portOpen (deliver c (set_incoming cs w)) = true)
      by now rewrite Ho2, Ho1.
    destruct (JS.endsWith (buf ++ c) JS.CRLF).
    + cbn [fst snd app] in L.
      pose proof L as (_ & _ & _ & _ & _ & _ & Hps').
      cbn [settledBy] in Hps'.
      rewrite (awaitWith_settled _ cs _ _ Hps'). cbn [fst snd].
      split; [reflexivity|]. split; [intros _; now rewrite Hin2, Hin1|].
      split; [exact Hopen'|]. split; [now rewrite Hw2, Hw1|].
      intros Hwf. destruct (Hwf2 (Hwf1 Hwf)) as [H1 H2].
      split; [exact H1 | now rewrite H2, Hl1].
    + cbn [fst snd] in L.
      destruct (IH _ (buf ++ c) Hopen' L) as (H1 & H2 & H3 & H4 & H5).
      split; [exact H1|]. split; [exact H2|]. split; [exact H3|].
      split; [now rewrite H4, Hw2, Hw1|].
      intros Hwf. destruct (Hwf2 (Hwf1 Hwf)) as [K1 K2].
      destruct (H5 K1) as [J1 J2]. split; [exact J1|].
      now rewrite J2, K2, Hl1.
Qed.

Lemma sendCommandWithAnswer_pendingInput (command : string) (w : World) :
  pendingInput (snd (sendCommandWithAnswer command w)) = pendingInput w.
Proof.
  unfold sendCommandWithAnswer, checkPortOpen, writeCallback, onDataListener,
    pendingInput.
  destruct w as [[sp|] ? ? ? ? ? ? ? ? ?]; [|reflexivity]. cbn.
  destruct (isOpen sp); [|reflexivity]. cbn. now destruct (writeError sp).
Qed.

(** The full account of one request on an open port whose writes succeed,
    in a well-formed world. *)
Lemma awaitAnswer_account (command : string) (w : World) :
  portOpen w = true ->
  writesSucceed w = true ->
  wellFormed w ->
  fst (awaitAnswer command w)
  = match firstAnswer "" (pendingInput w) with
    | Some v => Fulfilled v
    | None => Pending
    end
  /\ (firstAnswer "" (pendingInput w) <> None ->
      pendingInput (snd (awaitAnswer command w))
      = afterFirstAnswer "" (pendingInput w))
  /\ portOpen (snd (awaitAnswer command w)) = true
  /\ writesSucceed (snd (awaitAnswer command w)) = true
  /\ wellFormed (snd (awaitAnswer command w))
  /\ length (listeners (snd (awaitAnswer command w)))
     = S (length (listeners w)).
Proof.
  intros Hopen Hwrite Hwf.
  pose proof (sendCommandWithAnswer_listening command w Hopen Hwrite Hwf) as L.
  destruct (sendCommandWithAnswer_open command w Hopen Hwrite)
    as (Hpid & _ & Hl & _).
  destruct (sendCommandWithAnswer_preserves command w Hopen Hwrite)
    as (Ho1 & Hw1 & _ & Hwf1).
  pose proof (sendCommandWithAnswer_pendingInput command w) as Hin.
  unfold awaitAnswer.
  destruct (sendCommandWithAnswer command w) as [pid w1].
  cbn [fst snd] in *. subst pid. unfold await. rewrite Hin.
  destruct (awaitWith_firstAnswer (length (promises w)) (pendingInput w)
              w1 "" Ho1 L) as (H1 & H2 & H3 & H4 & H5).
  destruct (H5 (Hwf1 Hwf)) as [H6 H7].
  split; [exact H1|]. split; [exact H2|]. split; [exact H3|].
  split; [now rewrite H4|]. split; [exact H6|].
  rewrite <- (length_map waiter), H7, length_map, Hl, length_app. cbn. lia.
Qed.

(** X14. What an awaited request returns. On an open port whose writes
    succeed, [sendCommandWithAnswer] followed by [await] writes the
    command once and returns what has arrived since, up to the first
    chunk at whose end the arrived text ends with CR LF, trimmed;
    terminators inside that text stay in it.  While the arrived text ends
    with CR LF at no chunk end the caller stays suspended: nothing in the
    class ends the wait, so with a silent device, or one whose line never
    ends at a chunk end, the call does not settle. *)
Theorem awaited_answer_is_first_terminated_arrival
    (command : string) (w : World) :
  portOpen w = true ->
  writesSucceed w = true ->
  wellFormed w ->
  fst (awaitAnswer command w)
  = match firstAnswer "" (pendingInput w) with
    | Some v => Fulfilled v
    | None => Pending
    end
  /\ (pendingInput w = [] -> fst (awaitAnswer command w) = Pending)
  /\ timeline (snd (awaitAnswer command w))
     = (timeline w ++ [Wrote (command ++ JS.CRLF)])%list.
Proof.
  intros Hopen Hwrite Hwf.
  destruct (awaitAnswer_account command w Hopen Hwrite Hwf) as (H & _).
  split; [exact H|]. split.
  - intros Hin. rewrite H, Hin. reflexivity.
  - now apply awaitAnswer_timeline.
Qed.

Lemma awaited_answer_is_first_terminated_arrival_witness :
  fst (awaitAnswer "WH"
         (connected ["1,2"; ",3" ++ JS.CRLF ++ "4,5" ++ JS.CRLF; "6"]))
  = Fulfilled ("1,2,3" ++ JS.CRLF ++ "4,5")
  /\ fst (awaitAnswer "WH" (connected ["1,2,3,4,5" ++ JS.CRLF ++ "x"]))
     = Pending
  /\ fst (awaitAnswer "WH" (connected [])) = Pending.
Proof.
  assert (Hwf : forall feed, wellFormed (connected feed))
    by (intros; split; constructor).
  split; [|split].
  - etransitivity;
      [apply (proj1 (awaited_answer_is_first_terminated_arrival "WH"
                       (connected ["1,2"; ",3" ++ JS.CRLF ++ "4,5" ++ JS.CRLF;
                                   "6"])
                       eq_refl eq_refl (Hwf _)))
      | vm_compute; reflexivity].
  - etransitivity;
      [apply (proj1 (awaited_answer_is_first_terminated_arrival "WH"
                       (connected ["1,2,3,4,5" ++ JS.CRLF ++ "x"])
                       eq_refl eq_refl (Hwf _)))
      | vm_compute; reflexivity].
  - apply (proj1 (proj2 (awaited_answer_is_first_terminated_arrival "WH"
                           (connected []) eq_refl eq_refl (Hwf _)))).
    reflexivity.
Defined.

(** X15. Requests made one after the other are answered in order. On an
    open port whose writes succeed, when the first request has been
    answered, a second request made afterwards returns what arrives after
    the first answer was complete, up to the first chunk at whose end
    that text ends with CR LF: the first request's listener, still
    registered, does not disturb it.  Two more listeners are registered
    in the end. *)
Theorem requests_answered_in_order (first second : string) (w : World)
    (v1 : string) :
  portOpen w = true ->
  writesSucceed w = true ->
  wellFormed w ->
  firstAnswer "" (pendingInput w) = Some v1 ->
  let w1 := snd (awaitAnswer first w) in
  fst (awaitAnswer first w) = Fulfilled v1
  /\ fst (awaitAnswer second w1)
     = match firstAnswer "" (afterFirstAnswer "" (pendingInput w)) with
       | Some v2 => Fulfilled v2
       | None => Pending
       end
  /\ length (listeners (snd (awaitAnswer second w1)))
     = S (S (length (listeners w))).
Proof.
  intros Hopen Hwrite Hwf Hv1 w1. subst w1.
  destruct (awaitAnswer_account first w Hopen Hwrite Hwf)
    as (H1 & H2 & H3 & H4 & H5 & H6).
  rewrite Hv1 in H1, H2. specialize (H2 ltac:(discriminate)).
  destruct (awaitAnswer_account second _ H3 H4 H5) as (K1 & _ & _ & _ & _ & K6).
  split; [exact H1|]. split; [now rewrite K1, H2 | now rewrite K6, H6].
Qed.

Lemma requests_answered_in_order_witness :
  let w := connected [exampleAnswer; "2" ++ JS.CRLF] in
  fst (awaitAnswer "WH" w)
  = Fulfilled "+012.300, .500,-001.000,+000.000,+090.000"
  /\ fst (awaitAnswer "ER" (snd (awaitAnswer "WH" w))) = Fulfilled "2".
Proof.
  cbv zeta.
  assert (Hwf : wellFormed (connected [exampleAnswer; "2" ++ JS.CRLF]))
    by (split; constructor).
  destruct (requests_answered_in_order "WH" "ER"
              (connected [exampleAnswer; "2" ++ JS.CRLF])
              "+012.300, .500,-001.000,+000.000,+090.000"
              eq_refl eq_refl Hwf ltac:(vm_compute; reflexivity))
    as (H1 & H2 & _).
  split; [exact H1|].
  etransitivity; [exact H2 | vm_compute; reflexivity].
Defined.

(** X16. Listeners are never removed. On an open port whose writes
    succeed, every awaited request leaves one more "data" listener
    registered, whether its promise settles or not, and no arrival of
    data removes a listener: the number of listeners only grows with the
    number of requests. *)
Theorem listeners_only_grow (w : World) :
  portOpen w = true ->
  writesSucceed w = true ->
  wellFormed w ->
  (forall command,
      length (listeners (snd (awaitAnswer command w)))
      = S (length (listeners w)))
  /\ (forall chunks,
         length (listeners (deliverAll chunks w)) = length (listeners w)).
Proof.
  intros Hopen Hwrite Hwf. split.
  - intros command.
    now destruct (awaitAnswer_account command w Hopen Hwrite Hwf)
      as (_ & _ & _ & _ & _ & H).
  - intros chunks. clear Hopen Hwrite. revert w Hwf.
    induction chunks as [|c cs IH]; intros w Hwf; [reflexivity|].
    cbn [deliverAll fold_left].
    destruct (deliver_preserves c w) as (_ & _ & _ & H).
    destruct (H Hwf) as [Hwf' Hm].
    change (length (listeners (deliverAll cs (deliver c w)))
            = length (listeners w)).
    rewrite (IH _ Hwf'). now rewrite <- (length_map waiter), Hm, length_map.
Qed.

Lemma listeners_only_grow_witness :
  length (listeners (snd (awaitAnswer "ER" (connected ["0" ++ JS.CRLF]))))
  = 1%nat
  /\ length (listeners
               (deliverAll ["1" ++ JS.CRLF; "2" ++ JS.CRLF]
                  (snd (awaitAnswer "ER" (connected ["0" ++ JS.CRLF])))))
     = 1%nat.
Proof.
  assert (Hwf : wellFormed (connected ["0" ++ JS.CRLF]))
    by (split; constructor).
  destruct (listeners_only_grow (connected ["0" ++ JS.CRLF])
              eq_refl eq_refl Hwf) as [H1 _].
  destruct (awaitAnswer_account "ER" (connected ["0" ++ JS.CRLF])
              eq_refl eq_refl Hwf) as (_ & _ & Ho & Hw & Hwf1 & _).
  destruct (listeners_only_grow _ Ho Hw Hwf1) as [_ H2].
  split; [apply H1|]. rewrite H2. apply H1.
Defined.

(** ** A failing write *)

Lemma sendCommandWithAnswer_write_error (command : string) (w : World)
    (sp : SerialPort) (err : Error) :
  port w = Some sp ->
  isOpen sp = true ->
  writeError sp = Some err ->
  sendCommandWithAnswer command w
  = (length (promises w),
     onDataListener (mkListener (length (promises w)) EmptyString)
       (set_promises (promises w ++ [Failed err])%list
          (emit [Wrote (command ++ JS.CRLF)] w))).
Proof.
  intros Hp Ho He.
  unfold sendCommandWithAnswer, checkPortOpen, writeCallback, reject.
  cbn [port set_promises promises write set_timeline]. rewrite Hp, Ho.
  cbn [port set_promises promises write set_timeline]. rewrite Hp, He.
  cbn [promises set_promises]. rewrite lookup_app_r by lia.
  rewrite Nat.sub_diag. cbn [lookup list_lookup].
  rewrite insert_app_r_alt by lia. rewrite Nat.sub_diag. reflexivity.
Qed.

(** X17. A write error reaches only the caller that awaits an answer. When
    the transport reports an error [err] for a write on an open port,
    [sendCommandWithAnswer] rejects its promise with [err], so the awaiting
    caller is rejected with it; the listener of the request is registered
    all the same.  [sendCommandNoAnswer] passes no callback to [write]: it
    fulfils as if the write had succeeded. *)
Theorem write_error_reaches_only_requests (command : string) (w : World)
    (sp : SerialPort) (err : Error) :
  port w = Some sp ->
  isOpen sp = true ->
  writeError sp = Some err ->
  fst (awaitAnswer command w) = Rejected err
  /\ listeners (snd (awaitAnswer command w))
     = (listeners w ++ [mkListener (length (promises w)) EmptyString])%list
  /\ sendCommandNoAnswer command w
     = (Fulfilled tt, emit [Wrote (command ++ JS.CRLF); Slept 100] w).
Proof.
  intros Hp Ho He.
  assert (Hopen : portOpen w = true) by (unfold portOpen; now rewrite Hp).
  assert (Hrun : awaitAnswer command w
                 = (Rejected err,
                    onDataListener
                      (mkListener (length (promises w)) EmptyString)
                      (set_promises (promises w ++ [Failed err])%list
                         (emit [Wrote (command ++ JS.CRLF)] w)))).
  { unfold awaitAnswer.
    rewrite (sendCommandWithAnswer_write_error command w sp err Hp Ho He).
    unfold await.
    match goal with
    | |- awaitWith _ ?feed ?w1 = _ =>
        assert (Hl : promises w1 !! length (promises w) = Some (Failed err))
    end.
    { unfold onDataListener. cbn [port set_promises emit set_timeline].
      rewrite Hp. cbn [promises set_port set_promises].
      rewrite lookup_app_r by lia. now rewrite Nat.sub_diag. }
    destruct (pendingInput _); cbn [awaitWith]; now rewrite Hl. }
  rewrite Hrun. cbn [fst snd]. split; [reflexivity|].
  split; [|now apply sendCommandNoAnswer_open].
  unfold listeners, onDataListener. cbn [port set_promises emit set_timeline].
  rewrite Hp. reflexivity.
Qed.

Lemma write_error_reaches_only_requests_witness :
  let w :=
    set_port (Some (mkSerialPort true [] [] (Some (MkError "EIO"))))
      Robot.newRobot in
  fst (awaitAnswer "WH" w) = Rejected (MkError "EIO")
  /\ fst (sendCommandNoAnswer "OG" w) = Fulfilled tt.
Proof.
  cbv zeta.
  destruct (write_error_reaches_only_requests "WH"
              (set_port (Some (mkSerialPort true [] [] (Some (MkError "EIO"))))
                 Robot.newRobot)
              (mkSerialPort true [] [] (Some (MkError "EIO"))) (MkError "EIO")
              eq_refl eq_refl eq_refl) as (H1 & _ & _).
  destruct (write_error_reaches_only_requests "OG"
              (set_port (Some (mkSerialPort true [] [] (Some (MkError "EIO"))))
                 Robot.newRobot)
              (mkSerialPort true [] [] (Some (MkError "EIO"))) (MkError "EIO")
              eq_refl eq_refl eq_refl) as (_ & _ & H3).
  split; [exact H1 | now rewrite H3].
Defined.

(** ** disconnect *)



(** ** The text of a coordinate *)

Lemma length_skip (n : nat) (s : string) :
  String.length (JS.skip n s) = (String.length s - n)%nat.
Proof.
  revert s. induction n as [|n IH]; intros [|c s]; cbn; try reflexivity.
  apply IH.
Qed.

Lemma length_take (n : nat) (s : string) :
  (n <= String.length s)%nat -> String.length (JS.take n s) = n.
Proof.
  revert s. induction n as [|n IH]; intros [|c s]; cbn; try reflexivity;
    try lia.
  intros H. rewrite IH; lia.
Qed.

Lemma allDigits_take (n : nat) (s : string) :
  allDigits s = true -> allDigits (JS.take n s) = true.
Proof.
  revert s. induction n as [|n IH]; intros [|c s]; cbn; try reflexivity.
  intros [-> H]%andb_prop. now rewrite IH.
Qed.

Lemma allDigits_skip (n : nat) (s : string) :
  allDigits s = true -> allDigits (JS.skip n s) = true.
Proof.
  revert s. induction n as [|n IH]; intros [|c s]; cbn; try easy.
  intros [_ H]%andb_prop. now apply IH.
Qed.

Lemma allDigits_app (a b : string) :
  allDigits a = true -> allDigits b = true -> allDigits (a ++ b) = true.
Proof.
  induction a as [|c a IH]; cbn; [easy|].
  intros [-> Ha]%andb_prop Hb. now rewrite IH.
Qed.

Lemma allDigits_zeros (n : nat) : allDigits (JS.zeros n) = true.
Proof. induction n; cbn; [reflexivity | exact IHn]. Qed.

Lemma length_zeros (n : nat) : String.length (JS.zeros n) = n.
Proof. induction n; cbn; [reflexivity | now rewrite IHn]. Qed.

Lemma length_append (a b : string) :
  String.length (a ++ b) = (String.length a + String.length b)%nat.
Proof. induction a as [|c a IH]; cbn; [reflexivity | now rewrite IH]. Qed.

Lemma allDigits_string_of_uint (u : Decimal.uint) :
  allDigits (DecimalString.NilEmpty.string_of_uint u) = true.
Proof. induction u; cbn; [reflexivity | exact IHu ..]. Qed.

Lemma allDigits_digitsOfZ (z : Z) :
  (0 <= z)%Z -> allDigits (JS.digitsOfZ z) = true.
Proof.
  intros Hz. unfold JS.digitsOfZ.
  destruct z as [|q|q]; [reflexivity| |lia]. cbn.
  unfold DecimalString.NilZero.string_of_uint.
  destruct (Pos.to_uint q); try reflexivity;
    apply (allDigits_string_of_uint (_ _)).
Qed.

Lemma fraction_positive (m : positive) (e : Z) :
  (0 < fst (JS.fraction m e))%Z /\ (0 < snd (JS.fraction m e))%Z.
Proof.
  unfold JS.fraction. destruct (Z.leb_spec 0 e); cbn [fst snd].
  - split; [|lia]. apply Z.mul_pos_pos; [lia|]. now apply Z.pow_pos_nonneg.
  - split; [lia|]. apply Z.pow_pos_nonneg; lia.
Qed.

(** X19. One decimal on the wire. For every finite number of magnitude
    below [10^21], [fmt] renders an optional ["-"], at least one digit, a
    point and exactly one digit; nothing else appears in the text. *)
Theorem fmt_one_decimal (x : JS.number) :
  finiteBelow1e21 x = true ->
  exists (sign whole : string) (d : ascii),
    Utils.fmt x = sign ++ whole ++ "." ++ String d EmptyString
    /\ (sign = "" \/ sign = "-")
    /\ whole <> ""
    /\ allDigits whole = true
    /\ JS.isDigit d = true.
Proof.
  unfold finiteBelow1e21, Utils.fmt, JS.toFixed1.
  destruct (Prim2SF x) as [s|s| |s m e]; try discriminate.
  - intros _. exists "", "0", "0"%char. repeat split; auto; discriminate.
  - pose proof (fraction_positive m e) as [Hn Hd].
    destruct (JS.fraction m e) as [n d]. cbn [fst snd] in Hn, Hd.
    intros Hlt. apply Z.ltb_lt in Hlt.
    destruct (Z.leb_spec (10 ^ 21 * d) n) as [Hle|_]; [lia|].
    set (r := ((20 * n + d) / (2 * d))%Z).
    assert (Hr : (0 <= r)%Z) by (apply Z.div_pos; lia).
    set (ds0 := JS.digitsOfZ r).
    assert (Hds0 : allDigits ds0 = true) by now apply allDigits_digitsOfZ.
    set (ds := if (String.length ds0 <=? 1)%nat
               then JS.zeros (2 - String.length ds0) ++ ds0 else ds0).
    assert (Hds : allDigits ds = true /\ (2 <= String.length ds)%nat).
    { subst ds. destruct (Nat.leb_spec (String.length ds0) 1).
      - split; [apply allDigits_app; [apply allDigits_zeros | exact Hds0]|].
        rewrite length_append, length_zeros. lia.
      - split; [exact Hds0 | lia]. }
    destruct Hds as [Hdig Hlen].
    pose proof (length_skip (String.length ds - 1) ds) as Hsk.
    pose proof (allDigits_skip (String.length ds - 1) ds Hdig) as Hskd.
    destruct (JS.skip (String.length ds - 1) ds) as [|c [|c' rest]] eqn:E;
      cbn in Hsk; try lia.
    exists (if s then "-" else ""), (JS.take (String.length ds - 1) ds), c.
    split; [reflexivity|]. split; [destruct s; auto|]. split.
    { intros H0.
      pose proof (length_take (String.length ds - 1) ds ltac:(lia)) as Ht.
      rewrite H0 in Ht. cbn in Ht. lia. }
    split; [now apply allDigits_take|].
    cbn in Hskd. now apply andb_prop in Hskd as [-> _].
Qed.

Lemma fmt_one_decimal_witness :
  exists (sign whole : string) (d : ascii),
    Utils.fmt twelve_point_three = sign ++ whole ++ "." ++ String d EmptyString
    /\ (sign = "" \/ sign = "-")
    /\ whole <> ""
    /\ allDigits whole = true
    /\ JS.isDigit d = true.
Proof.
  apply (fmt_one_decimal twelve_point_three). vm_compute. reflexivity.
Defined.

(** ** Every write is terminated *)

Lemma otw_same {A : Type} (m : Async A) :
  (forall w, timeline (snd (m w)) = timeline w) -> onlyTerminatedWrites m.
Proof. intros H w. exists []. now rewrite app_nil_r, H. Qed.

Lemma otw_bind {A B : Type} (m : Async A) (k : A -> Async B) :
  onlyTerminatedWrites m ->
  (forall a, onlyTerminatedWrites (k a)) ->
  onlyTerminatedWrites (bind m k).
Proof.
  intros Hm Hk w. unfold bind. destruct (Hm w) as (e1 & H1 & T1).
  destruct (m w) as [[a|e|] w1]; cbn [snd] in *; try (now exists e1).
  destruct (Hk a w1) as (e2 & H2 & T2). exists (e1 ++ e2)%list.
  rewrite H2, H1, <- app_assoc. split; [reflexivity|].
  now rewrite forallb_app, T1, T2.
Qed.

Lemma otw_checkPortOpen : onlyTerminatedWrites checkPortOpen.
Proof.
  apply otw_same. intros w. unfold checkPortOpen.
  destruct (port w) as [sp|]; [now destruct (isOpen sp) | reflexivity].
Qed.

Lemma otw_sendCommandNoAnswer (command : string) :
  onlyTerminatedWrites (sendCommandNoAnswer command).
Proof.
  intros w. destruct (portOpen w) eqn:Hopen.
  - rewrite sendCommandNoAnswer_open by exact Hopen.
    exists [Wrote (command ++ JS.CRLF); Slept 100]. split; [reflexivity|].
    cbn. now rewrite endsWith_app.
  - rewrite sendCommandNoAnswer_closed by exact Hopen. exists [].
    now rewrite app_nil_r.
Qed.

Lemma otw_awaitAnswer (command : string) :
  onlyTerminatedWrites (awaitAnswer command).
Proof.
  intros w. destruct (portOpen w) eqn:Hopen.
  - exists [Wrote (command ++ JS.CRLF)].
    split; [now apply awaitAnswer_timeline|]. cbn. now rewrite endsWith_app.
  - rewrite awaitAnswer_closed by exact Hopen. exists [].
    now rewrite app_nil_r.
Qed.

Lemma otw_moveTo (pos : Types.Position) (n : JS.number) :
  onlyTerminatedWrites (moveTo pos n).
Proof.
  unfold moveTo. apply otw_bind; [apply otw_checkPortOpen|]. intros _.
  destruct pos as [x y z p r]. apply otw_bind.
  - destruct (PrimFloat.eqb n 0); [apply otw_sendCommandNoAnswer|].
    apply otw_bind; [apply otw_sendCommandNoAnswer|]. intros _.
    apply otw_bind; [apply otw_sendCommandNoAnswer|]. intros _ w.
    apply otw_sendCommandNoAnswer.
  - intros _. apply otw_bind; [now apply otw_same|]. intros ref.
    now apply otw_same.
Qed.

Lemma otw_getActualPosition (force : bool) :
  onlyTerminatedWrites (getActualPosition force).
Proof.
  assert (Hq : onlyTerminatedWrites
                 (response <- awaitAnswer "WH" ;;
                  let parts := map parsePart (JS.split response ",") in
                  if (length parts <? 5)%nat then
                    throw (MkError "Invalid position response format")
                  else
                    let position :=
                      Types.mkPosition (nth 0 parts PrimFloat.nan)
                        (nth 1 parts PrimFloat.nan) (nth 2 parts PrimFloat.nan)
                        (nth 3 parts PrimFloat.nan) (nth 4 parts PrimFloat.nan)
                    in
                    ref <- alloc position ;;
                    modify (set_position (Some ref)) ;;
                    alloc position)).
  { apply otw_bind; [apply otw_awaitAnswer|]. intros response. cbv zeta.
    destruct (_ <? 5)%nat; [now apply otw_same|].
    apply otw_bind; [now apply otw_same|]. intros ref.
    apply otw_bind; [now apply otw_same | intros _; now apply otw_same]. }
  intros w. unfold getActualPosition.
  destruct (negb force), (position w) as [ref|]; try apply Hq.
  exists []. now rewrite app_nil_r.
Qed.

Lemma otw_movePathLoop (points : list Types.Position) :
  forall i, onlyTerminatedWrites (movePathLoop i points).
Proof.
  induction points as [|pt rest IH]; intros i; cbn [movePathLoop].
  - now apply otw_same.
  - apply otw_bind; [apply otw_sendCommandNoAnswer|]. intros _.
    apply otw_bind; [|intros _; apply IH].
    intros w. exists [Slept 100]. now split.
Qed.

(** X20. Every write is a terminated command. In every world, whatever
    the arguments and whatever the device sends, each method only appends
    to what has been written, and every text it hands to [port.write]
    ends with CR LF; [withCheck] keeps this for any operation that has
    it. *)
Theorem every_write_is_terminated :
  (forall pos n, onlyTerminatedWrites (moveTo pos n))
  /\ (forall x y z n, onlyTerminatedWrites (moveToXYZ x y z n))
  /\ (forall x y z a b c, onlyTerminatedWrites (moveDelta x y z a b c))
  /\ (forall points, onlyTerminatedWrites (movePath points))
  /\ (forall x y z p r, onlyTerminatedWrites (rotateAxis x y z p r))
  /\ (forall force, onlyTerminatedWrites (getActualPosition force))
  /\ (forall open, onlyTerminatedWrites (setGripper open))
  /\ (forall s, onlyTerminatedWrites (setSpeed s))
  /\ (forall L, onlyTerminatedWrites (setToolLength L))
  /\ (forall a b c, onlyTerminatedWrites (setGripPressure a b c))
  /\ onlyTerminatedWrites moveToHomePosition
  /\ onlyTerminatedWrites nest
  /\ onlyTerminatedWrites reset
  /\ onlyTerminatedWrites checkRobotErrorCode
  /\ (forall (T : Type) (operation : Async T),
         onlyTerminatedWrites operation ->
         onlyTerminatedWrites (withCheck operation)).
Proof.
  assert (Hcheck : onlyTerminatedWrites checkRobotErrorCode).
  { unfold checkRobotErrorCode.
    apply otw_bind; [apply otw_checkPortOpen|]. intros _.
    apply otw_bind; [apply otw_awaitAnswer|]. intros res. now apply otw_same. }
  repeat split.
  - apply otw_moveTo.
  - intros x y z n w. unfold moveToXYZ.
    destruct (position w); [apply otw_moveTo|]. exists [].
    now rewrite app_nil_r.
  - intros x y z a b c w. unfold moveDelta.
    destruct (position w) as [ref|]; [|exists []; now rewrite app_nil_r].
    destruct b, c; apply otw_moveTo.
  - intros points. unfold movePath.
    apply otw_bind; [apply otw_checkPortOpen|]. intros _.
    apply otw_bind; [apply otw_movePathLoop|]. intros _.
    apply otw_sendCommandNoAnswer.
  - intros x y z p r. unfold rotateAxis.
    apply otw_bind; [apply otw_checkPortOpen|]. intros _.
    apply otw_bind; [apply otw_sendCommandNoAnswer|]. intros _.
    apply otw_bind; [apply otw_getActualPosition|]. intros _.
    now apply otw_same.
  - apply otw_getActualPosition.
  - intros open. unfold setGripper.
    apply otw_bind; [apply otw_checkPortOpen|]. intros _.
    apply otw_bind;
      [destruct open; apply otw_sendCommandNoAnswer | intros _; now apply otw_same].
  - intros s. unfold setSpeed.
    apply otw_bind; [apply otw_checkPortOpen|]. intros _.
    destruct (_ || _); [now apply otw_same|].
    apply otw_bind; [now apply otw_same | intros _; apply otw_sendCommandNoAnswer].
  - intros L. unfold setToolLength.
    apply otw_bind; [apply otw_checkPortOpen|]. intros _.
    apply otw_bind; [now apply otw_same | intros _; apply otw_sendCommandNoAnswer].
  - intros a b c. unfold setGripPressure.
    apply otw_bind; [apply otw_checkPortOpen|]. intros _.
    repeat (destruct (_ || _); [now apply otw_same|]).
    apply otw_sendCommandNoAnswer.
  - apply otw_bind; [apply otw_checkPortOpen|]. intros _.
    apply otw_sendCommandNoAnswer.
  - apply otw_bind; [apply otw_checkPortOpen|]. intros _.
    apply otw_sendCommandNoAnswer.
  - apply otw_bind; [apply otw_checkPortOpen|]. intros _.
    apply otw_sendCommandNoAnswer.
  - exact Hcheck.
  - intros T operation Hop. unfold withCheck.
    apply otw_bind; [exact Hop|]. intros cbResult.
    apply otw_bind; [exact Hcheck|]. intros [|error]; now apply otw_same.
Qed.

Lemma every_write_is_terminated_witness :
  onlyTerminatedWrites (withCheck (moveTo poseA 0)).
Proof.
  destruct every_write_is_terminated
    as (Hmove & _ & _ & _ & _ & _ & _ & _ & _ & _ & _ & _ & _ & _ & Hwith).
  apply Hwith. apply Hmove.
Defined.

(** ** withCheck after a move *)

(** X21. A failed check does not undo the move. On an open port whose
    writes succeed, when the device answers the ["ER"] query of
    [withCheck(moveTo(P, n))] with a code other than 0, the call is
    rejected with the command error of that code, but the move commands
    have been written and [P] is the cached pose all the same. *)
Theorem withCheck_move_keeps_cache (pos : Types.Position) (n : JS.number)
    (w : World) (res : string) (code : Types.ROBOT_ERRORS) :
  portOpen w = true ->
  writesSucceed w = true ->
  wellFormed w ->
  firstAnswer "" (pendingInput w) = Some res ->
  errorResultOf res = NotOk code ->
  fst (withCheck (moveTo pos n) w) = Rejected (CommandError code)
  /\ cachedPose (snd (withCheck (moveTo pos n) w)) = Some pos
  /\ timeline (snd (withCheck (moveTo pos n) w))
     = (timeline w ++ moveEvents pos n (toolIsOpen w)
        ++ [Wrote ("ER" ++ JS.CRLF)])%list.
Proof.
  intros Hopen Hwrite Hwf Hres Hcode.
  set (w1 := set_position (Some (length (heap w)))
               (set_heap (heap w ++ [pos])%list
                  (emit (moveEvents pos n (toolIsOpen w)) w))).
  assert (Ho1 : portOpen w1 = true) by exact Hopen.
  assert (Hw1 : writesSucceed w1 = true) by exact Hwrite.
  assert (Hwf1 : wellFormed w1) by exact Hwf.
  assert (Hc1 : cachedPose w1 = Some pos)
    by apply (cachedPose_after_alloc pos (emit _ w)).
  destruct (awaitAnswer_account "ER" w1 Ho1 Hw1 Hwf1) as (Ha & _).
  change (pendingInput w1) with (pendingInput w) in Ha. rewrite Hres in Ha.
  pose proof (awaitAnswer_cache "ER" w1) as Hcache.
  pose proof (awaitAnswer_timeline "ER" w1 Ho1) as Htl.
  assert (Hrun : withCheck (moveTo pos n) w
                 = (Rejected (CommandError code),
                    snd (awaitAnswer "ER" w1))).
  { unfold withCheck. unfold bind at 1. rewrite (moveTo_any pos n w Hopen).
    fold w1. unfold checkRobotErrorCode, bind.
    rewrite (checkPortOpen_open w1 Ho1).
    destruct (awaitAnswer "ER" w1) as [o w2]. cbn [fst snd] in *. subst o.
    unfold ret. now rewrite Hcode. }
  rewrite Hrun. cbn [fst snd].
  split; [reflexivity|]. split; [now rewrite Hcache|].
  rewrite Htl. subst w1. cbn. now rewrite <- app_assoc.
Qed.

Lemma withCheck_move_keeps_cache_witness :
  fst (withCheck (moveTo poseA 0) (connected ["2" ++ JS.CRLF]))
  = Rejected (CommandError Types.COMMAND_ERROR)
  /\ cachedPose (snd (withCheck (moveTo poseA 0) (connected ["2" ++ JS.CRLF])))
     = Some poseA.
Proof.
  assert (Hwf : wellFormed (connected ["2" ++ JS.CRLF]))
    by (split; constructor).
  destruct (withCheck_move_keeps_cache poseA 0 (connected ["2" ++ JS.CRLF])
              "2" Types.COMMAND_ERROR eq_refl eq_refl Hwf
              ltac:(vm_compute; reflexivity) ltac:(vm_compute; reflexivity))
    as (H1 & H2 & _).
  split; [exact H1 | exact H2].
Defined.
